(** * finchat: the natural-language-to-SQL pipeline, embedded in Rocq

    A shallow embedding of the core of the chatbot
    ([modules/utils.py], [modules/bedrock_client.py],
    [modules/redshift_client.py], [modules/query_generator.py]) and the
    properties of its specification that can be settled on it.

    Text.  A Python [str] is modelled as a list of characters, [str];
    a character is a Rocq [ascii].  The character classes of Python
    ([str.isspace], the [\w] of [re], [str.upper]) are embedded on the
    7-bit range, where SQL keywords, fences and terminators live; a
    character above 127 is kept as it is and is neither white space
    nor a word character.

    Effects.  The warehouse, the connection pool and the model are
    outside the program.  They are modelled by an explicit state
    ([world]) that is threaded through the calls, a scripted [backend]
    that answers every call, and a result type for Python's
    exceptions.  What [time.time()] returns is an argument of the
    function that reads it, a rational number of seconds.  One caller
    at a time is modelled. *)

From Stdlib Require Import String Ascii List Bool Arith ZArith NArith Lia.
From Stdlib Require Import QArith.
From Stdlib Require DecimalString.
Import ListNotations.
Close Scope Q_scope.

Set Implicit Arguments.

(** ** Python strings *)

Module PyStr.

Definition str := list ascii.

(** A string literal of the source. *)
Definition py (s : string) : str := list_ascii_of_string s.

Definition LF : ascii := ascii_of_nat 10.

Definition ord (c : ascii) : N := N_of_ascii c.

Definition between (lo hi : N) (c : ascii) : bool :=
  (lo <=? ord c)%N && (ord c <=? hi)%N.

Definition islower (c : ascii) : bool := between 97 122 c.
Definition isupper (c : ascii) : bool := between 65 90 c.
Definition isdigit (c : ascii) : bool := between 48 57 c.

(** [str.isspace] on one character: TAB, LF, VT, FF, CR, the four
    separators FS, GS, RS, US, and the space. *)
Definition isspace (c : ascii) : bool :=
  between 9 13 c || between 28 31 c || (ord c =? 32)%N.

(** The class [\w] of the [re] module. *)
Definition is_word (c : ascii) : bool :=
  islower c || isupper c || isdigit c || (ord c =? 95)%N.

Definition upper_char (c : ascii) : ascii :=
  if islower c then ascii_of_N (ord c - 32) else c.

(** [s.upper()] *)
Definition upper (s : str) : str := map upper_char s.

(** [s.startswith(p)] *)
Fixpoint startswith (s p : str) {struct p} : bool :=
  match p with
  | [] => true
  | a :: p' =>
      match s with
      | [] => false
      | b :: s' => Ascii.eqb b a && startswith s' p'
      end
  end.

(** [s.endswith(p)] *)
Definition endswith (s p : str) : bool := startswith (rev s) (rev p).

(** [s.startswith((p1, p2, ...))], a tuple of prefixes. *)
Definition startswith_any (s : str) (ps : list str) : bool :=
  existsb (startswith s) ps.

(** [s.count(c)] for a one-character [c]. *)
Fixpoint count (s : str) (c : ascii) : nat :=
  match s with
  | [] => 0
  | a :: s' => (if Ascii.eqb a c then 1 else 0) + count s' c
  end.

(** [s.lstrip()], [s.rstrip()], [s.strip()] *)
Fixpoint lstrip (s : str) : str :=
  match s with
  | [] => []
  | c :: s' => if isspace c then lstrip s' else s
  end.

Definition rstrip (s : str) : str := rev (lstrip (rev s)).

Definition strip (s : str) : str := rstrip (lstrip s).

(** The first occurrence of [sep] in [s]: the text before it and the
    text after it. *)
Fixpoint partition (s sep : str) : option (str * str) :=
  if startswith s sep then Some ([], skipn (length sep) s)
  else
    match s with
    | [] => None
    | c :: s' =>
        match partition s' sep with
        | Some (before, after) => Some (c :: before, after)
        | None => None
        end
    end.

(** The last occurrence of [sep] in [s]. *)
Definition rpartition (s sep : str) : option (str * str) :=
  match partition (rev s) (rev sep) with
  | Some (a, b) => Some (rev b, rev a)
  | None => None
  end.

(** [sep in s] *)
Definition contains (s sep : str) : bool :=
  match partition s sep with Some _ => true | None => false end.

(** *** The regular expression [\b<literal>\b]

    [re.search(r'\b' + keyword + r'\b', text)], for a [keyword] made
    of ordinary characters.  [\b] holds between two positions exactly
    when one side is a word character and the other is not, the two
    ends of the text counting as not. *)

Definition word_opt (o : option ascii) : bool :=
  match o with Some c => is_word c | None => false end.

Definition at_boundary (before after : option ascii) : bool :=
  xorb (word_opt before) (word_opt after).

Definition last_or (prev : option ascii) (l : str) : option ascii :=
  match rev l with c :: _ => Some c | [] => prev end.

(** The pattern matches with its first character at the head of [s];
    [prev] is the character before [s]. *)
Definition match_here (prev : option ascii) (kw s : str) : bool :=
  at_boundary prev (hd_error s)
  && startswith s kw
  && at_boundary (last_or prev kw) (hd_error (skipn (length kw) s)).

(** The keywords that the pattern is read for: a word character at
    either end. *)
Definition word_keyword (kw : str) : bool :=
  word_opt (hd_error kw) && word_opt (last_or None kw).

Fixpoint re_search_word (prev : option ascii) (kw s : str) : bool :=
  match_here prev kw s
  || match s with
     | [] => false
     | c :: s' => re_search_word (Some c) kw s'
     end.

End PyStr.
Import PyStr.

(** ** modules/utils.py *)

Module Utils.

Definition dangerous_keywords : list str :=
  map py ["DROP"; "DELETE"; "INSERT"; "UPDATE";
          "ALTER"; "CREATE"; "TRUNCATE"; "GRANT";
          "REVOKE"; "EXEC"; "EXECUTE"]%string.

(** The [for keyword in dangerous_keywords] loop with its early
    return: the first keyword of the list that the text contains. *)
Fixpoint first_dangerous (kws : list str) (sql_upper : str) : option str :=
  match kws with
  | [] => None
  | keyword :: rest =>
      if re_search_word None keyword sql_upper then Some keyword
      else first_dangerous rest sql_upper
  end.

Definition validate_sql_safety (sql : str) : bool * str :=
  let sql_upper := upper sql in
  match first_dangerous dangerous_keywords sql_upper with
  | Some keyword => (false, py "Dangerous SQL keyword detected: " ++ keyword)
  | None =>
      if negb (startswith (strip sql_upper) (py "SELECT")) then
        (false, py "Query must start with SELECT")
      else
        let semicolon_count := count sql ";"%char in
        if 1 <? semicolon_count then
          (false, py "Multiple SQL statements not allowed")
        else if (semicolon_count =? 1) && negb (endswith (rstrip sql) (py ";")) then
          (false, py "Multiple SQL statements not allowed")
        else (true, py "")
  end.

(** [sanitize_sql]

    [re.sub(r'--.*$', '', sql, flags=re.MULTILINE)]: from a double
    dash to the end of its line, the line feed staying. *)
Fixpoint strip_line_comments (in_comment : bool) (sql : str) : str :=
  match sql with
  | [] => []
  | c :: rest =>
      if in_comment then
        if Ascii.eqb c LF then c :: strip_line_comments false rest
        else strip_line_comments true rest
      else if startswith sql (py "--") then strip_line_comments true rest
      else c :: strip_line_comments false rest
  end.

(** [re.sub(r'/\*.*?\*/', '', sql, flags=re.DOTALL)]: from a comment
    opener to the nearest closer after it; an opener that is never
    closed stays.  [skip] counts the characters of a comment still to
    be dropped. *)
Fixpoint strip_block_comments (skip : nat) (sql : str) : str :=
  match sql with
  | [] => []
  | c :: rest =>
      match skip with
      | S k => strip_block_comments k rest
      | O =>
          if startswith sql (py "/*") then
            match partition (skipn 2 sql) (py "*/") with
            | Some (body, _) => strip_block_comments (1 + length body + 2) rest
            | None => c :: strip_block_comments 0 rest
            end
          else c :: strip_block_comments 0 rest
      end
  end.

(** [sql.split()]: the maximal runs of characters that are not white
    space; [word] is the run being read, last character first. *)
Fixpoint split_ws (word : str) (sql : str) : list str :=
  match sql with
  | [] => match word with [] => [] | _ => [rev word] end
  | c :: rest =>
      if isspace c then
        match word with
        | [] => split_ws [] rest
        | _ => rev word :: split_ws [] rest
        end
      else split_ws (c :: word) rest
  end.

(** [sep.join(parts)] *)
Fixpoint join (sep : str) (parts : list str) : str :=
  match parts with
  | [] => []
  | [p] => p
  | p :: more => p ++ sep ++ join sep more
  end.

Definition sanitize_sql (sql : str) : str :=
  let sql := strip_line_comments false sql in
  let sql := strip_block_comments 0 sql in
  let sql := join (py " ") (split_ws [] sql) in
  strip sql.

(** [results[:max_rows]], for a [max_rows] of either sign: a negative
    bound counts from the end of the list. *)
Definition slice_to (A : Type) (l : list A) (n : Z) : list A :=
  if (n <? 0)%Z then firstn (Z.to_nat (Z.of_nat (length l) + n)) l
  else firstn (Z.to_nat n) l.

Definition truncate_results (A : Type) (results : list A) (max_rows : Z)
  : list A * bool :=
  let was_truncated := (max_rows <? Z.of_nat (length results))%Z in
  (slice_to results max_rows, was_truncated).

(** *** Exceptions

    An exception carries the name of its class ([type(e).__name__])
    and its text ([str(e)]); [exn_family] says which [except] clauses
    catch it. *)
Inductive family := ValueErrorFamily | PsycopgErrorFamily | OtherFamily.

Record exn := Exn {
  exn_family : family;
  exn_type : str;
  exn_text : str
}.

Definition ValueError (msg : str) : exn :=
  Exn ValueErrorFamily (py "ValueError") msg.

(** [Exception(msg)] *)
Definition Exception (msg : str) : exn :=
  Exn OtherFamily (py "Exception") msg.

(** [KeyError(key)]; its text is the [repr] of the key. *)
Definition KeyError (key : str) : exn :=
  Exn OtherFamily (py "KeyError") (py "'" ++ key ++ py "'").

Definition isinstance_ValueError (e : exn) : bool :=
  match exn_family e with ValueErrorFamily => true | _ => false end.

Inductive result (A : Type) : Type :=
| Ok (a : A)
| Raise (e : exn).
Arguments Ok {A} a.
Arguments Raise {A} e.

Definition str_eqb (a b : str) : bool :=
  if list_eq_dec ascii_dec a b then true else false.

(** [friendly_messages.get(error_type, default)] *)
Definition friendly_messages : list (str * str) :=
  [ (py "OperationalError",
     py "Database connection error. Please check your connection settings.");
    (py "ProgrammingError",
     py "Invalid SQL query generated. Please try rephrasing your question.");
    (py "TimeoutError",
     py "Query took too long to execute. Please try a more specific question.") ].

Fixpoint dict_get (A : Type) (d : list (str * A)) (key : str) : option A :=
  match d with
  | [] => None
  | (k, v) :: more => if str_eqb k key then Some v else dict_get more key
  end.

Definition format_error_message (error : exn) (user_friendly : bool) : str :=
  if user_friendly then
    let error_type := exn_type error in
    match dict_get friendly_messages error_type with
    | Some message => message
    | None => py "An error occurred while processing your request. Please try again."
    end
  else exn_text error.

End Utils.
Import Utils.

(** ** modules/bedrock_client.py *)

Module Bedrock.

Definition fence : str := py "```".

Definition _extract_sql_from_response (response : str) : str :=
  let sql := strip response in
  let sql :=
    if startswith sql fence then
      (* sql.split('\n', 1)[1] if '\n' in sql else sql *)
      let sql :=
        match partition sql [LF] with
        | Some (_, after) => after
        | None => sql
        end in
      if endswith sql fence then
        (* sql.rsplit('```', 1)[0] *)
        match rpartition sql fence with
        | Some (before, _) => before
        | None => sql
        end
      else sql
    else sql in
  strip sql.

Definition str_of_nat (n : nat) : str :=
  py (DecimalString.NilZero.string_of_uint (Nat.to_uint n)).

Definition _create_fallback_response (A : Type) (query_results : list A) : str :=
  match query_results with
  | [] => py "No results found for your query."
  | _ =>
      let count := length query_results in
      py "Found " ++ str_of_nat count
        ++ py " result(s). Please see the data table below."
  end.

End Bedrock.
Import Bedrock.

(** ** modules/redshift_client.py *)

Module Redshift.

(** A value of the warehouse, as the driver hands it over. *)
Inductive value := VNull | VBool (b : bool) | VInt (z : Z) | VText (s : str).

(** [str(v)], as an f-string renders it. *)
Definition str_of_value (v : value) : str :=
  match v with
  | VNull => py "None"
  | VBool true => py "True"
  | VBool false => py "False"
  | VInt z => py (DecimalString.NilZero.string_of_int (Z.to_int z))
  | VText s => s
  end.

Definition value_eqb (a b : value) : bool :=
  match a, b with
  | VNull, VNull => true
  | VBool x, VBool y => Bool.eqb x y
  | VInt x, VInt y => (x =? y)%Z
  | VText x, VText y => str_eqb x y
  | _, _ => false
  end.

(** A result row, [dict(row)]: column name to value. *)
Definition row := list (str * value).

Record Config := {
  MAX_QUERY_TIMEOUT : Z;
  MAX_RESULT_ROWS : Z;
  REDSHIFT_SCHEMA : str
}.

Definition conn := nat.

(** What the program does to its collaborators, in order. *)
Inductive event :=
| Validate (sql : str)
| Getconn (c : conn)
| Putconn (c : conn)
| CursorOpen (c : conn)
| CursorClose (c : conn)
| SetTimeout (c : conn) (timeout_ms : Z)
| Execute (c : conn) (sql : str) (params : list value)
| Fetchall (c : conn)
| FetchSchema
| InvokeModel.

(** The state outside the program: the pool of the client
    ([self.connection_pool], [None] or the connections handed out),
    the number of calls made to the warehouse and to the model, and
    the events so far, oldest first. *)
Record world := World {
  connection_pool : option (list conn);
  db_calls : nat;
  llm_calls : nat;
  trace : list event
}.

Definition log (ev : event) (w : world) : world :=
  World (connection_pool w) (db_calls w) (llm_calls w) (trace w ++ [ev]).

Definition set_pool (p : option (list conn)) (w : world) : world :=
  World p (db_calls w) (llm_calls w) (trace w).

Definition tick_db (w : world) : world :=
  World (connection_pool w) (S (db_calls w)) (llm_calls w) (trace w).

Definition tick_llm (w : world) : world :=
  World (connection_pool w) (db_calls w) (S (llm_calls w)) (trace w).

(** What the driver does at each step of one call of
    [execute_query]: raise (an exception is given) or go on. *)
Record db_reply := {
  on_getconn : option exn;
  on_cursor : option exn;
  on_set_timeout : option exn;
  on_execute : option exn;
  on_fetchall : result (list row)
}.

(** Every step succeeds and [rows] are fetched. *)
Definition fetched_rows (rows : list row) : db_reply :=
  {| on_getconn := None; on_cursor := None; on_set_timeout := None;
     on_execute := None; on_fetchall := Ok rows |}.

(** The statement itself fails with [e]. *)
Definition execute_fails (e : exn) : db_reply :=
  {| on_getconn := None; on_cursor := None; on_set_timeout := None;
     on_execute := Some e; on_fetchall := Ok [] |}.

(** The collaborators, scripted: the warehouse answers its n-th call
    (given the statement, its parameters and the timeout of the
    session), the model its n-th invocation. *)
Record backend := {
  db : nat -> str -> list value -> Z -> db_reply;
  llm : nat -> result str
}.

(** Computations that touch the world and may raise. *)
Definition M (A : Type) : Type := world -> result A * world.

Definition ret (A : Type) (a : A) : M A := fun w => (Ok a, w).

Definition raise (A : Type) (e : exn) : M A := fun w => (Raise e, w).
Arguments raise {A} e.

Definition bind (A B : Type) (m : M A) (k : A -> M B) : M B :=
  fun w =>
    match m w with
    | (Ok a, w') => k a w'
    | (Raise e, w') => (Raise e, w')
    end.

Definition lift (A : Type) (r : result A) : M A := fun w => (r, w).

Definition emit (ev : event) : M unit := fun w => (Ok tt, log ev w).

Declare Scope py_scope.
Delimit Scope py_scope with py_m.
Notation "x <- m ;; k" := (bind m (fun x => k))
  (at level 61, m at next level, right associativity) : py_scope.
Notation "m ;;; k" := (bind m (fun _ => k))
  (at level 61, right associativity) : py_scope.
Open Scope py_scope.

Fixpoint remove_first (c : conn) (used : list conn) : list conn :=
  match used with
  | [] => []
  | d :: more => if Nat.eqb c d then more else d :: remove_first c more
  end.

(** [get_connection]: without a pool it raises; the pool hands out a
    connection or raises.  The connection handed out by the n-th call
    is named n. *)
Definition get_connection (reply : db_reply) : M conn :=
  fun w =>
    match connection_pool w with
    | None => (Raise (Exception (py "Connection pool not initialized")), w)
    | Some used =>
        match on_getconn reply with
        | Some e => (Raise e, w)
        | None =>
            let c := db_calls w in
            (Ok c, log (Getconn c) (set_pool (Some (c :: used)) w))
        end
    end.

(** [self.connection_pool.putconn(conn)]; without a pool the
    attribute access fails. *)
Definition return_connection (c : conn) : M unit :=
  fun w =>
    match connection_pool w with
    | Some used =>
        (Ok tt, log (Putconn c) (set_pool (Some (remove_first c used)) w))
    | None =>
        (Raise (Exn OtherFamily (py "AttributeError")
                  (py "'NoneType' object has no attribute 'putconn'")), w)
    end.

Definition schema_prefixes : list str :=
  [py "SELECT TABLE_SCHEMA"; py "SELECT COLUMN_NAME"].

(** The guard of [execute_query]: the statement goes to
    [validate_sql_safety]. *)
Definition validator_applied (sql : str) : bool :=
  negb (startswith_any (upper (strip sql)) schema_prefixes).

(** [timeout_seconds or Config.MAX_QUERY_TIMEOUT] *)
Definition timeout_or (timeout_seconds : option Z) (default : Z) : Z :=
  match timeout_seconds with
  | Some t => if (t =? 0)%Z then default else t
  | None => default
  end.

(** The row cap of [execute_query]. *)
Definition limit_results (cfg : Config) (results_list : list row) : list row :=
  if (MAX_RESULT_ROWS cfg <? Z.of_nat (length results_list))%Z
  then slice_to results_list (MAX_RESULT_ROWS cfg)
  else results_list.

(** The local variables [conn] and [cursor] when the [try] block of
    [execute_query] is left, and how it is left. *)
Record try_exit := TryExit {
  outcome : result (list row);
  local_conn : option conn;
  local_cursor : option conn
}.

Definition execute_query_try (cfg : Config) (reply : db_reply)
    (sql : str) (params : list value) (timeout_ms : Z)
    (w : world) : try_exit * world :=
  match get_connection reply w with
  | (Raise e, w) => (TryExit (Raise e) None None, w)
  | (Ok c, w) =>
      match on_cursor reply with
      | Some e => (TryExit (Raise e) (Some c) None, w)
      | None =>
          let w := log (CursorOpen c) w in
          let w := log (SetTimeout c timeout_ms) w in
          match on_set_timeout reply with
          | Some e => (TryExit (Raise e) (Some c) (Some c), w)
          | None =>
              let w := log (Execute c sql params) w in
              match on_execute reply with
              | Some e => (TryExit (Raise e) (Some c) (Some c), w)
              | None =>
                  let w := log (Fetchall c) w in
                  match on_fetchall reply with
                  | Raise e => (TryExit (Raise e) (Some c) (Some c), w)
                  | Ok results =>
                      (TryExit (Ok (limit_results cfg results))
                         (Some c) (Some c), w)
                  end
              end
          end
      end
  end.

(** The [finally] block: close the cursor if there is one, return the
    connection if there is one. *)
Definition execute_query_finally (x : try_exit) (w : world)
  : result (list row) * world :=
  let w :=
    match local_cursor x with
    | Some c => log (CursorClose c) w
    | None => w
    end in
  match local_conn x with
  | Some c =>
      match return_connection c w with
      | (Ok _, w) => (outcome x, w)
      | (Raise e, w) => (Raise e, w)
      end
  | None => (outcome x, w)
  end.

(** The head of [execute_query]: a statement that does not start as
    the schema queries do is validated, and refused when unsafe. *)
Definition execute_query_guard (sql : str) : M unit :=
  if validator_applied sql then
    emit (Validate sql) ;;;
    let '(is_safe, error_msg) := validate_sql_safety sql in
    if negb is_safe then
      raise (ValueError (py "Unsafe SQL query: " ++ error_msg))
    else ret tt
  else ret tt.

(** The [try] ... [finally] of [execute_query]; both [except] clauses
    log and raise again. *)
Definition execute_query_pooled (cfg : Config) (be : backend)
    (sql : str) (params : list value) (timeout_seconds : option Z)
  : M (list row) :=
  fun w =>
    let timeout_ms :=
      (timeout_or timeout_seconds (MAX_QUERY_TIMEOUT cfg) * 1000)%Z in
    let reply := db be (db_calls w) sql params timeout_ms in
    let '(x, w) := execute_query_try cfg reply sql params timeout_ms (tick_db w) in
    execute_query_finally x w.

Definition execute_query (cfg : Config) (be : backend)
    (sql : str) (params : list value) (timeout_seconds : option Z)
  : M (list row) :=
  execute_query_guard sql ;;;
  execute_query_pooled cfg be sql params timeout_seconds.

(** *** get_schema *)

Record ColumnInfo := {
  col_name : value;
  col_type : value;
  col_nullable : bool
}.

Record TableInfo := {
  name : str;
  columns : list ColumnInfo
}.

(** The dictionary [{'tables': [...]}]. *)
Record schema_info := { tables : list TableInfo }.

Definition lines (ls : list string) : str := join [LF] (map py ls).

Definition tables_sql_target : str := lines
  [ "";
    "                    SELECT table_schema, table_name";
    "                    FROM information_schema.tables";
    "                    WHERE table_type = 'BASE TABLE'";
    "                        AND table_schema = %s";
    "                    ORDER BY table_name";
    "                    LIMIT 100";
    "                " ]%string.

Definition tables_sql_default : str := lines
  [ "";
    "                    SELECT table_schema, table_name";
    "                    FROM information_schema.tables";
    "                    WHERE table_type = 'BASE TABLE'";
    "                        AND table_schema NOT IN (";
    "                            'information_schema',";
    "                            'pg_catalog',";
    "                            'pg_internal'";
    "                        )";
    "                        AND table_schema LIKE 'public%'";
    "                    ORDER BY table_schema, table_name";
    "                    LIMIT 50";
    "                " ]%string.

Definition columns_sql : str := lines
  [ "";
    "                    SELECT";
    "                        column_name,";
    "                        data_type,";
    "                        is_nullable";
    "                    FROM information_schema.columns";
    "                    WHERE table_schema = %s";
    "                        AND table_name = %s";
    "                    ORDER BY ordinal_position";
    "                " ]%string.

(** [row[key]] *)
Definition getitem (r : row) (key : str) : result value :=
  match dict_get r key with
  | Some v => Ok v
  | None => Raise (KeyError key)
  end.

(** The comprehension over the rows of the column query. *)
Fixpoint column_infos (columns : list row) : result (list ColumnInfo) :=
  match columns with
  | [] => Ok []
  | col :: more =>
      match getitem col (py "column_name") with
      | Raise e => Raise e
      | Ok n =>
      match getitem col (py "data_type") with
      | Raise e => Raise e
      | Ok t =>
      match getitem col (py "is_nullable") with
      | Raise e => Raise e
      | Ok nullable =>
      match column_infos more with
      | Raise e => Raise e
      | Ok infos =>
          Ok ({| col_name := n; col_type := t;
                 col_nullable := value_eqb nullable (VText (py "YES")) |}
              :: infos)
      end end end end
  end.

(** The loop [for table in tables]; [acc] is [schema_info['tables']]
    so far. *)
Fixpoint get_schema_loop (cfg : Config) (be : backend) (tables : list row)
    (acc : list TableInfo) : M (list TableInfo) :=
  match tables with
  | [] => ret acc
  | table :: more =>
      table_schema <- lift (getitem table (py "table_schema")) ;;
      table_name <- lift (getitem table (py "table_name")) ;;
      let full_table_name :=
        str_of_value table_schema ++ py "." ++ str_of_value table_name in
      columns <- execute_query cfg be columns_sql
                   [table_schema; table_name] (Some 120%Z) ;;
      infos <- lift (column_infos columns) ;;
      get_schema_loop cfg be more
        (acc ++ [{| name := full_table_name; columns := infos |}])
  end.

(** [if target_schema:] is taken by a string that is not empty. *)
(** The [try] block of [get_schema]. *)
Definition get_schema_try (cfg : Config) (be : backend)
    (target_schema : option str) : M (list TableInfo) :=
  tables <-
    (match target_schema with
     | Some (c :: s) =>
         execute_query cfg be tables_sql_target [VText (c :: s)] (Some 120%Z)
     | _ =>
         execute_query cfg be tables_sql_default [] (Some 120%Z)
     end) ;;
  get_schema_loop cfg be tables [].

(** [get_schema]: whatever the [try] block raises is logged and
    answered by the empty schema. *)
Definition get_schema (cfg : Config) (be : backend)
    (target_schema : option str) (w : world) : schema_info * world :=
  match get_schema_try cfg be target_schema (log FetchSchema w) with
  | (Ok ts, w) => ({| tables := ts |}, w)
  | (Raise e, w) => ({| tables := [] |}, w)
  end.

(** *** Reading a trace *)

Definition acquired (evs : list event) : list conn :=
  flat_map (fun ev => match ev with Getconn c => [c] | _ => [] end) evs.

Definition released (evs : list event) : list conn :=
  flat_map (fun ev => match ev with Putconn c => [c] | _ => [] end) evs.

Definition validated (evs : list event) : list str :=
  flat_map (fun ev => match ev with Validate s => [s] | _ => [] end) evs.

Definition fetches (evs : list event) : nat :=
  length (filter (fun ev => match ev with FetchSchema => true | _ => false end) evs).

(** The events that a step adds to a trace. *)
Definition since (before after : world) : list event :=
  skipn (length (trace before)) (trace after).

End Redshift.
Import Redshift.

(** ** modules/query_generator.py *)

Module QueryGen.

(** [BedrockClient._invoke_model]: the prompt goes out, the scripted
    reply of the model comes back or the call raises. *)
Definition _invoke_model (be : backend) : M str :=
  fun w =>
    let w := log InvokeModel w in
    (llm be (llm_calls w), tick_llm w).

(** [BedrockClient.generate_sql] *)
Definition generate_sql (be : backend) : M str :=
  response <- _invoke_model be ;;
  ret (_extract_sql_from_response response).

(** [BedrockClient.format_response]: a failure of the model is
    replaced by the fallback text. *)
Definition format_response (be : backend) (query_results : list row) : M str :=
  fun w =>
    match _invoke_model be w with
    | (Ok response, w) => (Ok response, w)
    | (Raise _, w) => (Ok (_create_fallback_response query_results), w)
    end.

Record QueryGenerator := {
  schema_cache : option schema_info;
  schema_cache_time : option Q
}.

(** The generator as [__init__] leaves it. *)
Definition init : QueryGenerator :=
  {| schema_cache := None; schema_cache_time := None |}.

Definition cache_duration : Q := 300.

Definition Qltb (a b : Q) : bool := negb (Qle_bool b a).

(** [_get_schema_info]; [current_time] is what [time.time()] returns
    in this call. *)
Definition _get_schema_info (cfg : Config) (be : backend)
    (self : QueryGenerator) (current_time : Q) (w : world)
  : schema_info * QueryGenerator * world :=
  let fetch :=
    let '(fresh, w) := get_schema cfg be (Some (REDSHIFT_SCHEMA cfg)) w in
    (fresh,
     {| schema_cache := Some fresh; schema_cache_time := Some current_time |},
     w) in
  match schema_cache self, schema_cache_time self with
  | Some cached, Some fetched_at =>
      if Qltb (current_time - fetched_at)%Q cache_duration
      then (cached, self, w)
      else fetch
  | _, _ => fetch
  end.

(** The dictionary that [generate_and_execute] returns. *)
Record envelope := {
  response : str;
  sql_query : option str;
  results : list row;
  execution_time : Q;
  error : option str
}.

(** [generate_and_execute]; the three readings of the clock are
    [start_time], the one inside [_get_schema_info] and the one taken
    when the dictionary is built. *)
Definition generate_and_execute (cfg : Config) (be : backend)
    (self : QueryGenerator) (user_query : str)
    (start_time schema_time end_time : Q) (w : world)
  : envelope * QueryGenerator * world :=
  let '(schema, self, w) := _get_schema_info cfg be self schema_time w in
  match tables schema with
  | [] =>
      ({| response :=
            py "Unable to retrieve database schema. Please check your RedShift connection.";
          sql_query := None;
          results := [];
          execution_time := (end_time - start_time)%Q;
          error := Some (py "Schema retrieval failed") |}, self, w)
  | _ :: _ =>
      let work : M envelope :=
        sql_query <- generate_sql be ;;
        let sql_query := sanitize_sql sql_query in
        results <- execute_query cfg be sql_query [] None ;;
        response <- format_response be results ;;
        ret {| response := response;
               sql_query := Some sql_query;
               results := results;
               execution_time := (end_time - start_time)%Q;
               error := None |} in
      match work w with
      | (Ok env, w) => (env, self, w)
      | (Raise e, w) =>
          if isinstance_ValueError e then
            let error_msg := exn_text e in
            ({| response :=
                  py "I couldn't generate a safe query for that request. "
                    ++ error_msg;
                sql_query := None;
                results := [];
                execution_time := (end_time - start_time)%Q;
                error := Some error_msg |}, self, w)
          else
            let error_msg := format_error_message e true in
            ({| response := error_msg;
                sql_query := None;
                results := [];
                execution_time := (end_time - start_time)%Q;
                error := Some (exn_text e) |}, self, w)
      end
  end.

End QueryGen.
Import QueryGen.

(** ** The words of the specification

    The notions that the specification uses to state its properties,
    written from its sentences; the theorems below compare them with
    what the code computes. *)

Module Spec.

(** Nothing, or a character that is not a word character, comes just
    before (after) an occurrence. *)
Definition boundary_before (pre : str) : Prop :=
  pre = [] \/ exists p c, pre = p ++ [c] /\ is_word c = false.

Definition boundary_after (post : str) : Prop :=
  post = [] \/ exists c q, post = c :: q /\ is_word c = false.

(** [sql] contains [kw] as a standalone word, in any case. *)
Definition standalone_word (kw sql : str) : Prop :=
  exists pre w post,
    sql = pre ++ w ++ post /\ upper w = kw
    /\ boundary_before pre /\ boundary_after post.

Definition contains_blocked_verb (sql : str) : Prop :=
  exists kw, In kw dangerous_keywords /\ standalone_word kw sql.

(** After trimming, [sql] starts with SELECT, in any case. *)
Definition starts_with_select (sql : str) : Prop :=
  exists w rest, strip sql = w ++ rest /\ upper w = py "SELECT".

(** No white space at either end. *)
Definition trimmed (s : str) : Prop :=
  (forall c r, s = c :: r -> isspace c = false)
  /\ (forall p c, s = p ++ [c] -> isspace c = false).

(** [s] with its trailing white space removed: [body] followed by
    white space only, [body] not ending in white space. *)
Definition trailing_trim (s body : str) : Prop :=
  exists ws, s = body ++ ws /\ forallb isspace ws = true
             /\ (forall p c, body = p ++ [c] -> isspace c = false).

(** More than one semicolon, or one that is not the last character
    once trailing white space is trimmed. *)
Definition stacked (sql : str) : Prop :=
  1 < count sql ";"
  \/ (count sql ";" = 1
      /\ forall body, trailing_trim sql body -> forall p, body <> p ++ [";"%char]).

(** One semicolon, last but for white space. *)
Definition single_trailing_semicolon (sql : str) : Prop :=
  count sql ";" = 1
  /\ exists p ws, sql = p ++ [";"%char] ++ ws /\ forallb isspace ws = true.

Definition opens_with_fence (s : str) : Prop := exists r, s = fence ++ r.

(** The messages that say nothing of the failure they report. *)
Definition generic_messages : list str :=
  map snd friendly_messages
  ++ [py "An error occurred while processing your request. Please try again."].

End Spec.
Import Spec.

(** ** A small warehouse

    Concrete collaborators, on which the theorems are instantiated. *)

Module Demo.

Definition cfg : Config :=
  {| MAX_QUERY_TIMEOUT := 30; MAX_RESULT_ROWS := 300;
     REDSHIFT_SCHEMA := py "public" |}.

(** A client whose pool was created, and one whose pool was not. *)
Definition up : world := World (Some []) 0 0 [].
Definition down : world := World None 0 0 [].

Definition table_row (table : string) : row :=
  [ (py "table_schema", VText (py "public"));
    (py "table_name", VText (py table)) ].

Definition column_row (column type : string) : row :=
  [ (py "column_name", VText (py column));
    (py "data_type", VText (py type));
    (py "is_nullable", VText (py "NO")) ].

Definition order_row (id : Z) : row := [ (py "id", VInt id) ].

(** The catalogue: [orders] from the start, [customers] as well from
    the third call on. *)
Definition catalogue (n : nat) (sql : str) : list row :=
  if startswith (upper (strip sql)) (py "SELECT TABLE_SCHEMA") then
    if n <? 2 then [table_row "orders"]
    else [table_row "customers"; table_row "orders"]
  else [column_row "id" "integer"].

Definition is_catalogue_query (sql : str) : bool :=
  contains sql (py "information_schema").

(** A warehouse that answers every user query with [rows]. *)
Definition warehouse (rows : list row) : backend :=
  {| db := fun n sql _ _ =>
             if is_catalogue_query sql then fetched_rows (catalogue n sql)
             else fetched_rows rows;
     llm := fun _ => Ok (py "SELECT id FROM orders") |}.

Definition OperationalError (text : string) : exn :=
  Exn PsycopgErrorFamily (py "OperationalError") (py text).

(** A warehouse whose catalogue works and whose user queries fail
    with [text]. *)
Definition broken (text : string) : backend :=
  {| db := fun n sql _ _ =>
             if is_catalogue_query sql then fetched_rows (catalogue n sql)
             else execute_fails (OperationalError text);
     llm := fun _ => Ok (py "SELECT id FROM orders") |}.

Definition snapshot : schema_info :=
  {| tables :=
       [ {| name := py "public.orders";
            columns := [ {| col_name := VText (py "id");
                            col_type := VText (py "integer");
                            col_nullable := false |} ] |} ] |}.

(** A generator that cached [snapshot] at time 0. *)
Definition warm : QueryGenerator :=
  {| schema_cache := Some snapshot; schema_cache_time := Some 0%Q |}.



End Demo.

(** ** More of the code

    The functions of the same files that the properties above do not
    reach. *)

(** *** utils.format_query_results *)

Module Results.

(** [d[k] = v]: the value of a key that is there is replaced where it
    stands, a new key goes last. *)
Fixpoint dict_set (A : Type) (d : list (str * A)) (k : str) (v : A)
  : list (str * A) :=
  match d with
  | [] => [(k, v)]
  | (k', v') :: more =>
      if str_eqb k' k then (k', v) :: more
      else (k', v') :: dict_set more k v
  end.

(** [dict(pairs)] *)
Definition dict_of (A : Type) (pairs : list (str * A)) : list (str * A) :=
  fold_left (fun d kv => dict_set d (fst kv) (snd kv)) pairs [].

(** An entry of [cursor.description]: the name of the column, and the
    rest of the tuple. *)
Definition column_description := (str * list value)%type.

(** [format_query_results]; a row of the driver is a tuple of values,
    and [zip] stops at the shorter of its two arguments. *)
Definition format_query_results (results : list (list value))
    (description : list column_description) : list row :=
  match results with
  | [] => []
  | _ :: _ =>
      let columns := map fst description in
      map (fun r => dict_of (combine columns r)) results
  end.

End Results.
Import Results.

(** *** BedrockClient._format_schema_info *)

Module Prompt.

(** [f"{col['name']} ({col['type']})"] *)
Definition format_column (col : ColumnInfo) : str :=
  str_of_value (col_name col) ++ py " (" ++ str_of_value (col_type col)
    ++ py ")".

(** One line of the schema text. *)
Definition format_table (table : TableInfo) : str :=
  match columns table with
  | [] => name table
  | _ :: _ =>
      name table ++ py ": " ++ join (py ", ") (map format_column (columns table))
  end.

(** [_format_schema_info]; [None] stands for a schema that is falsy or
    has no ['tables']. *)
Definition _format_schema_info (schema : option schema_info) : str :=
  match schema with
  | None => py "No schema information available"
  | Some s => join [LF] (map format_table (tables s))
  end.

(** [text.split(sep)] for a one-character [sep]; [piece] is the piece
    being read, last character first. *)
Fixpoint split_on (sep : ascii) (piece : str) (text : str) : list str :=
  match text with
  | [] => [rev piece]
  | c :: rest =>
      if Ascii.eqb c sep then rev piece :: split_on sep [] rest
      else split_on sep (c :: piece) rest
  end.

End Prompt.
Import Prompt.

(** *** test_connection *)

Module Health.

(** [v == 1], as Python compares: [True] equals 1. *)
Definition equals_one (v : value) : bool :=
  match v with
  | VInt z => (z =? 1)%Z
  | VBool b => b
  | _ => false
  end.

(** [RedShiftClient.test_connection] *)
Definition test_connection (cfg : Config) (be : backend) (w : world)
  : bool * world :=
  match connection_pool w with
  | None => (false, w)
  | Some _ =>
      match execute_query cfg be (py "SELECT 1 as test") [] None w with
      | (Ok result, w) =>
          (match result with
           | [] => false
           | first :: _ =>
               match getitem first (py "test") with
               | Ok v => equals_one v
               | Raise _ => false
               end
           end, w)
      | (Raise _, w) => (false, w)
      end
  end.

(** [BedrockClient.test_connection] *)
Definition bedrock_test_connection (be : backend) (w : world) : bool * world :=
  match _invoke_model be w with
  | (Ok response, w) => (match response with [] => false | _ :: _ => true end, w)
  | (Raise _, w) => (false, w)
  end.

(** [QueryGenerator.test_connections]: the model first, the warehouse
    second. *)
Definition test_connections (cfg : Config) (be : backend) (w : world)
  : (bool * bool) * world :=
  let '(bedrock, w) := bedrock_test_connection be w in
  let '(redshift, w) := test_connection cfg be w in
  ((bedrock, redshift), w).

End Health.
Import Health.

(** *** More readers of a trace, and more inputs *)

Module Readers.

Definition timeouts (evs : list event) : list Z :=
  flat_map (fun ev => match ev with SetTimeout _ ms => [ms] | _ => [] end) evs.

Definition executed (evs : list event) : list str :=
  flat_map (fun ev => match ev with Execute _ sql _ => [sql] | _ => [] end) evs.

Definition invocations (evs : list event) : nat :=
  length (filter (fun ev => match ev with InvokeModel => true | _ => false end) evs).

(** What the driver sees of one call that reaches the pool, by how far
    the call gets. *)
Definition pooled_shapes (c : conn) (ms : Z) (sql : str) (params : list value)
  : list (list event) :=
  [ [];
    [Getconn c; Putconn c];
    [Getconn c; CursorOpen c; SetTimeout c ms; CursorClose c; Putconn c];
    [Getconn c; CursorOpen c; SetTimeout c ms; Execute c sql params;
     CursorClose c; Putconn c];
    [Getconn c; CursorOpen c; SetTimeout c ms; Execute c sql params;
     Fetchall c; CursorClose c; Putconn c] ].

(** A row of the table listing and the entry of the schema made of
    it. *)
Definition listed_as (r : row) (t : TableInfo) : Prop :=
  exists s n,
    getitem r (py "table_schema") = Ok s
    /\ getitem r (py "table_name") = Ok n
    /\ name t = str_of_value s ++ py "." ++ str_of_value n.

(** A row of the column listing and the column made of it. *)
Definition described_as (r : row) (c : ColumnInfo) : Prop :=
  getitem r (py "column_name") = Ok (col_name c)
  /\ getitem r (py "data_type") = Ok (col_type c)
  /\ exists nullable,
       getitem r (py "is_nullable") = Ok nullable
       /\ col_nullable c = value_eqb nullable (VText (py "YES")).

(** A table of the listing and its entry in the schema, columns
    included. *)
Definition entry_of (r : row) (t : TableInfo) : Prop :=
  listed_as r t
  /\ exists column_rows, Forall2 described_as column_rows (columns t).

Definition no_space (w : str) : Prop := forall c, In c w -> isspace c = false.

Definition not_space (c : ascii) : bool := negb (isspace c).

(** The envelope of a request that found no schema. *)
Definition schema_failure_envelope (elapsed : Q) : envelope :=
  {| response :=
       py "Unable to retrieve database schema. Please check your RedShift connection.";
     sql_query := None;
     results := [];
     execution_time := elapsed;
     error := Some (py "Schema retrieval failed") |}.

End Readers.
Import Readers.

Module Samples.

(** A model that answers with a statement that starts as a schema
    query does. *)
Definition smuggler : backend :=
  {| db := fun n sql _ _ =>
             if Demo.is_catalogue_query sql then fetched_rows (Demo.catalogue n sql)
             else fetched_rows [Demo.order_row 1];
     llm := fun _ => Ok (py "SELECT column_name FROM t; DROP TABLE orders") |}.

(** A model that answers with a statement that changes data. *)
Definition vandal : backend :=
  {| db := db (Demo.warehouse []);
     llm := fun _ => Ok (py "DELETE FROM orders") |}.

(** A model that writes the statement and then fails. *)
Definition tongue_tied : backend :=
  {| db := db (Demo.warehouse [Demo.order_row 1; Demo.order_row 2]);
     llm := fun n =>
              if n =? 0 then Ok (py "SELECT id FROM orders")
              else Raise (Exception (py "throttled")) |}.

End Samples.

(** ** Facts about strings *)

Section StrFacts.

Lemma is_word_upper_char (c : ascii) : is_word (upper_char c) = is_word c.
Proof. destruct c as [[] [] [] [] [] [] [] []]; reflexivity. Qed.

Lemma isspace_upper_char (c : ascii) : isspace (upper_char c) = isspace c.
Proof. destruct c as [[] [] [] [] [] [] [] []]; reflexivity. Qed.

Lemma upper_app (a b : str) : upper (a ++ b) = upper a ++ upper b.
Proof. apply map_app. Qed.

Lemma upper_split (s a b : str) :
  upper s = a ++ b -> exists x y, s = x ++ y /\ upper x = a /\ upper y = b.
Proof. apply map_eq_app. Qed.

Lemma startswith_spec (p s : str) :
  startswith s p = true <-> exists r, s = p ++ r.
Proof.
  revert s; induction p as [|a p IH]; intros s; simpl.
  - split; [intros _; exists s; reflexivity | reflexivity].
  - destruct s as [|b s].
    + split; [discriminate | intros [r Hr]; discriminate].
    + rewrite andb_true_iff, Ascii.eqb_eq, IH. split.
      * intros [-> [r ->]]. exists r; reflexivity.
      * intros [r Hr]. injection Hr as -> ->. split; [reflexivity | exists r; reflexivity].
  Qed.

Lemma startswith_app (p r : str) : startswith (p ++ r) p = true.
Proof. apply startswith_spec. exists r; reflexivity. Qed.

Lemma startswith_false (p s : str) :
  startswith s p = false <-> ~ exists r, s = p ++ r.
Proof.
  rewrite <- startswith_spec. destruct (startswith s p); split; intros H; congruence.
Qed.

Lemma endswith_spec (p s : str) :
  endswith s p = true <-> exists r, s = r ++ p.
Proof.
  unfold endswith. rewrite startswith_spec. split; intros [r Hr].
  - exists (rev r). rewrite <- (rev_involutive s), Hr, rev_app_distr, rev_involutive.
    reflexivity.
  - exists (rev r). rewrite Hr, rev_app_distr. reflexivity.
Qed.

Lemma lstrip_upper (s : str) : lstrip (upper s) = upper (lstrip s).
Proof.
  induction s as [|c s IH]; simpl; [reflexivity|].
  rewrite isspace_upper_char. destruct (isspace c); [exact IH | reflexivity].
Qed.

Lemma rstrip_upper (s : str) : rstrip (upper s) = upper (rstrip s).
Proof.
  unfold rstrip, upper. rewrite <- map_rev. fold (upper (rev s)).
  rewrite lstrip_upper. unfold upper. rewrite map_rev. reflexivity.
Qed.

Lemma strip_upper (s : str) : strip (upper s) = upper (strip s).
Proof. unfold strip. rewrite lstrip_upper, rstrip_upper. reflexivity. Qed.

Lemma last_or_cons (prev : option ascii) (c : ascii) (l : str) :
  last_or prev (c :: l) = last_or (Some c) l.
Proof.
  unfold last_or. simpl. destruct (rev l); reflexivity.
Qed.

Lemma last_or_snoc (prev : option ascii) (l : str) (c : ascii) :
  last_or prev (l ++ [c]) = Some c.
Proof. unfold last_or. rewrite rev_app_distr. reflexivity. Qed.

Lemma last_or_nonempty (prev : option ascii) (l : str) :
  l <> [] -> last_or prev l = last_or None l.
Proof.
  intros H. unfold last_or. destruct (rev l) eqn:E; [|reflexivity].
  apply (f_equal (@rev ascii)) in E. rewrite rev_involutive in E. contradiction.
Qed.

Lemma word_keyword_inv (kw : str) :
  word_keyword kw = true ->
  kw <> [] /\ word_opt (hd_error kw) = true
  /\ forall prev, word_opt (last_or prev kw) = true.
Proof.
  unfold word_keyword. rewrite andb_true_iff. intros [H1 H2].
  assert (kw <> []) by (intros ->; discriminate).
  repeat split; [assumption..|].
  intros prev. rewrite last_or_nonempty; assumption.
Qed.

Lemma re_search_word_cons (prev : option ascii) (kw : str) (c : ascii) (s : str) :
  re_search_word prev kw (c :: s)
  = match_here prev kw (c :: s) || re_search_word (Some c) kw s.
Proof. reflexivity. Qed.

Lemma re_search_word_here (prev : option ascii) (kw s : str) :
  match_here prev kw s = true -> re_search_word prev kw s = true.
Proof. intros H. destruct s; simpl; rewrite H; reflexivity. Qed.

Lemma re_search_word_app (kw pre rest : str) :
  forall prev,
    re_search_word (last_or prev pre) kw rest = true ->
    re_search_word prev kw (pre ++ rest) = true.
Proof.
  induction pre as [|c pre IH]; intros prev H.
  - exact H.
  - rewrite last_or_cons in H. apply IH in H.
    change ((c :: pre) ++ rest) with (c :: (pre ++ rest)).
    rewrite re_search_word_cons, H. apply orb_true_r.
Qed.

Lemma hd_error_app_nonempty (A : Type) (l r : list A) :
  l <> [] -> hd_error (l ++ r) = hd_error l.
Proof. destruct l; [contradiction | reflexivity]. Qed.

Lemma skipn_length_app (A : Type) (l r : list A) : skipn (length l) (l ++ r) = r.
Proof. induction l; simpl; auto. Qed.

Lemma match_here_intro (prev : option ascii) (kw post : str) :
  word_keyword kw = true ->
  word_opt prev = false ->
  word_opt (hd_error post) = false ->
  match_here prev kw (kw ++ post) = true.
Proof.
  intros Hk Hp Hq. destruct (word_keyword_inv _ Hk) as (Hne & Hh & Hl).
  unfold match_here, at_boundary.
  rewrite hd_error_app_nonempty, skipn_length_app, startswith_app by assumption.
  rewrite Hp, Hh, Hl, Hq. reflexivity.
Qed.

Lemma match_here_elim (prev : option ascii) (kw s : str) :
  word_keyword kw = true ->
  match_here prev kw s = true ->
  word_opt prev = false
  /\ exists post, s = kw ++ post /\ word_opt (hd_error post) = false.
Proof.
  intros Hk H. destruct (word_keyword_inv _ Hk) as (Hne & Hh & Hl).
  unfold match_here, at_boundary in H.
  apply andb_true_iff in H as [H H3]. apply andb_true_iff in H as [H1 H2].
  apply startswith_spec in H2 as [post ->].
  rewrite hd_error_app_nonempty, Hh in H1 by assumption.
  rewrite skipn_length_app, Hl in H3.
  split.
  - destruct (word_opt prev); [discriminate | reflexivity].
  - exists post. split; [reflexivity|].
    destruct (word_opt (hd_error post)); [discriminate | reflexivity].
Qed.

Lemma boundary_before_iff (pre : str) :
  boundary_before pre <-> word_opt (last_or None (upper pre)) = false.
Proof.
  split.
  - intros [-> | (p & c & -> & Hc)]; [reflexivity|].
    rewrite upper_app. simpl. rewrite last_or_snoc. simpl.
    rewrite is_word_upper_char. exact Hc.
  - destruct pre as [|c p _] using rev_ind; [left; reflexivity|].
    rewrite upper_app. simpl. rewrite last_or_snoc. simpl.
    rewrite is_word_upper_char. intros H. right. exists p, c. auto.
Qed.

Lemma boundary_after_iff (post : str) :
  boundary_after post <-> word_opt (hd_error (upper post)) = false.
Proof.
  split.
  - intros [-> | (c & q & -> & Hc)]; [reflexivity|].
    simpl. rewrite is_word_upper_char. exact Hc.
  - destruct post as [|c q]; [left; reflexivity|].
    simpl. rewrite is_word_upper_char. intros H. right. exists c, q. auto.
Qed.

Lemma re_search_word_elim (kw : str) :
  word_keyword kw = true ->
  forall s prev,
    re_search_word prev kw (upper s) = true ->
    exists pre w post,
      s = pre ++ w ++ post /\ upper w = kw
      /\ word_opt (last_or prev (upper pre)) = false
      /\ boundary_after post.
Proof.
  intros Hk. induction s as [|c s IH]; intros prev H.
  - simpl in H. rewrite orb_false_r in H.
    apply (match_here_elim _ _ _ Hk) in H as (Hp & post & E & _).
    destruct (word_keyword_inv _ Hk) as (Hne & _).
    destruct kw; [contradiction | discriminate].
  - change (upper (c :: s)) with (upper_char c :: upper s) in H.
    rewrite re_search_word_cons in H. apply orb_true_iff in H as [H | H].
    + apply (match_here_elim _ _ _ Hk) in H as (Hp & post & E & Hq).
      change (upper_char c :: upper s) with (upper (c :: s)) in E.
      apply upper_split in E as (x & y & E & Hx & Hy). subst post.
      exists [], x, y. repeat split; try assumption.
      apply boundary_after_iff. exact Hq.
    + apply IH in H as (pre & w & post & -> & Hw & Hp & Hq).
      exists (c :: pre), w, post. repeat split; try assumption.
      change (upper (c :: pre)) with (upper_char c :: upper pre).
      rewrite last_or_cons. exact Hp.
Qed.

(** The search of the code finds exactly the standalone words of the
    specification. *)
Lemma re_search_word_standalone (kw sql : str) :
  word_keyword kw = true ->
  re_search_word None kw (upper sql) = true <-> standalone_word kw sql.
Proof.
  intros Hk. split.
  - intros H. apply (re_search_word_elim _ Hk) in H
      as (pre & w & post & E & Hw & Hp & Hq).
    exists pre, w, post. repeat split; try assumption.
    apply boundary_before_iff. exact Hp.
  - intros (pre & w & post & -> & Hw & Hp & Hq).
    rewrite !upper_app, Hw. apply re_search_word_app, re_search_word_here.
    apply match_here_intro; [assumption | |].
    + apply boundary_before_iff. exact Hp.
    + apply boundary_after_iff. exact Hq.
Qed.

End StrFacts.

(** ** Trimming *)

Section Trimming.

Lemma lstrip_decomp (s : str) :
  exists ws, s = ws ++ lstrip s /\ forallb isspace ws = true
             /\ (forall c r, lstrip s = c :: r -> isspace c = false).
Proof.
  induction s as [|a s (ws & E & Hws & Hhd)]; simpl.
  - exists []. repeat split. discriminate.
  - destruct (isspace a) eqn:Ha.
    + exists (a :: ws). simpl. rewrite Ha, Hws. repeat split; [|exact Hhd].
      f_equal. exact E.
    + exists []. repeat split. intros c r [= <- <-]. exact Ha.
Qed.

Lemma lstrip_spaces (ws s : str) :
  forallb isspace ws = true -> lstrip (ws ++ s) = lstrip s.
Proof.
  induction ws as [|a ws IH]; simpl; [reflexivity|].
  intros H. apply andb_true_iff in H as [-> H]. auto.
Qed.

Lemma lstrip_fixed (c : ascii) (s : str) :
  isspace c = false -> lstrip (c :: s) = c :: s.
Proof. intros H. simpl. rewrite H. reflexivity. Qed.

Lemma forallb_rev (A : Type) (f : A -> bool) (l : list A) :
  forallb f (rev l) = forallb f l.
Proof.
  induction l as [|a l IH]; simpl; [reflexivity|].
  rewrite forallb_app, IH. simpl. rewrite andb_true_r. apply andb_comm.
Qed.

Lemma rstrip_decomp (s : str) :
  exists ws, s = rstrip s ++ ws /\ forallb isspace ws = true
             /\ (forall p c, rstrip s = p ++ [c] -> isspace c = false).
Proof.
  destruct (lstrip_decomp (rev s)) as (ws & E & Hws & Hhd).
  exists (rev ws). unfold rstrip. repeat split.
  - rewrite <- rev_app_distr, <- E, rev_involutive. reflexivity.
  - rewrite forallb_rev. exact Hws.
  - intros p c H. apply (f_equal (@rev ascii)) in H.
    rewrite rev_involutive, rev_app_distr in H. simpl in H. eauto.
Qed.

(** [rstrip] computes the trailing trim of the specification. *)
Lemma rstrip_trailing_trim (s : str) : trailing_trim s (rstrip s).
Proof. exact (rstrip_decomp s). Qed.

Lemma rstrip_spaces (s ws : str) :
  forallb isspace ws = true -> rstrip (s ++ ws) = rstrip s.
Proof.
  intros H. unfold rstrip. rewrite rev_app_distr, lstrip_spaces; [reflexivity|].
  rewrite forallb_rev. exact H.
Qed.

Lemma rstrip_fixed (s : str) (c : ascii) :
  isspace c = false -> rstrip (s ++ [c]) = s ++ [c].
Proof.
  intros H. unfold rstrip. rewrite rev_app_distr. simpl. rewrite H.
  simpl. rewrite rev_involutive. reflexivity.
Qed.

Lemma trimmed_strip (s : str) : trimmed s -> strip s = s.
Proof.
  intros [Hhd Hlast]. unfold strip.
  assert (E : lstrip s = s).
  { destruct s as [|c r]; [reflexivity|]. apply lstrip_fixed. eauto. }
  rewrite E. destruct s as [|c p _] using rev_ind; [reflexivity|].
  apply rstrip_fixed. eauto.
Qed.

Lemma strip_trimmed (s : str) : trimmed (strip s).
Proof.
  unfold strip.
  destruct (lstrip_decomp s) as (ws1 & _ & _ & Hhd).
  destruct (rstrip_decomp (lstrip s)) as (ws2 & E & _ & Hlast).
  split.
  - intros c r H. rewrite H in E. simpl in E. eauto.
  - exact Hlast.
Qed.

Lemma strip_idempotent (s : str) : strip (strip s) = strip s.
Proof. apply trimmed_strip, strip_trimmed. Qed.

End Trimming.

(** ** The safety validator *)

Section Validator.

Lemma dangerous_keywords_words (k : str) :
  In k dangerous_keywords -> word_keyword k = true.
Proof.
  assert (H : forallb word_keyword dangerous_keywords = true) by reflexivity.
  rewrite forallb_forall in H. apply H.
Qed.

Lemma first_dangerous_some (kws : list str) (s k : str) :
  first_dangerous kws s = Some k ->
  exists before after,
    kws = before ++ k :: after
    /\ re_search_word None k s = true
    /\ forall k', In k' before -> re_search_word None k' s = false.
Proof.
  induction kws as [|a kws IH]; simpl; [discriminate|].
  destruct (re_search_word None a s) eqn:Ha.
  - intros [= <-]. exists [], kws. repeat split; [assumption|]. intros k' [].
  - intros H. destruct (IH H) as (before & after & -> & Hk & Hb).
    exists (a :: before), after. repeat split; [assumption|].
    intros k' [<- | Hin]; auto.
Qed.

Lemma first_dangerous_none (kws : list str) (s : str) :
  first_dangerous kws s = None <->
  forall k, In k kws -> re_search_word None k s = false.
Proof.
  induction kws as [|a kws IH]; simpl.
  - split; [intros _ k [] | reflexivity].
  - destruct (re_search_word None a s) eqn:Ha.
    + split; [discriminate|]. intros H. rewrite (H a) in Ha by auto. discriminate.
    + rewrite IH. split.
      * intros H k [<- | Hin]; auto.
      * intros H k Hin. apply H. auto.
Qed.

(** The keyword loop finds nothing exactly when the statement has no
    blocked verb. *)
Lemma no_blocked_verb (sql : str) :
  ~ contains_blocked_verb sql <->
  first_dangerous dangerous_keywords (upper sql) = None.
Proof.
  rewrite first_dangerous_none. split.
  - intros H k Hin. destruct (re_search_word None k (upper sql)) eqn:E; [|reflexivity].
    exfalso. apply H. exists k. split; [assumption|].
    apply re_search_word_standalone; auto using dangerous_keywords_words.
  - intros H (k & Hin & Hk).
    apply re_search_word_standalone in Hk; auto using dangerous_keywords_words.
    rewrite (H k Hin) in Hk. discriminate.
Qed.

Lemma blocked_verb_found (sql : str) :
  contains_blocked_verb sql ->
  exists k before after,
    dangerous_keywords = before ++ k :: after
    /\ standalone_word k sql
    /\ (forall k', In k' before -> ~ standalone_word k' sql)
    /\ first_dangerous dangerous_keywords (upper sql) = Some k.
Proof.
  intros H.
  destruct (first_dangerous dangerous_keywords (upper sql)) as [k|] eqn:E.
  - destruct (first_dangerous_some _ _ E) as (before & after & Hl & Hk & Hb).
    assert (Hin : forall x, In x before \/ x = k -> In x dangerous_keywords).
    { intros x Hx. rewrite Hl. apply in_or_app. simpl. intuition auto. }
    exists k, before, after. repeat split; [assumption | | ].
    + apply re_search_word_standalone; auto using dangerous_keywords_words.
    + intros k' Hk' Hs.
      apply re_search_word_standalone in Hs; auto using dangerous_keywords_words.
      rewrite (Hb k' Hk') in Hs. discriminate.
  - apply no_blocked_verb in E. contradiction.
Qed.

Lemma starts_with_select_iff (sql : str) :
  starts_with_select sql <->
  startswith (strip (upper sql)) (py "SELECT") = true.
Proof.
  rewrite strip_upper, startswith_spec. split.
  - intros (w & rest & E & Hw). exists (upper rest).
    rewrite E, upper_app, Hw. reflexivity.
  - intros (r & E). apply upper_split in E as (w & rest & E & Hw & _).
    exists w, rest. auto.
Qed.

(** The three rules of the validator, in the order of the code. *)
Lemma validate_sql_safety_rules (sql : str) :
  validate_sql_safety sql =
  match first_dangerous dangerous_keywords (upper sql) with
  | Some keyword => (false, py "Dangerous SQL keyword detected: " ++ keyword)
  | None =>
      if startswith (strip (upper sql)) (py "SELECT") then
        if (1 <? count sql ";")
           || ((count sql ";" =? 1) && negb (endswith (rstrip sql) (py ";")))
        then (false, py "Multiple SQL statements not allowed")
        else (true, py "")
      else (false, py "Query must start with SELECT")
  end.
Proof.
  unfold validate_sql_safety.
  destruct (first_dangerous dangerous_keywords (upper sql)); [reflexivity|].
  destruct (startswith (strip (upper sql)) (py "SELECT")); [|reflexivity].
  simpl. destruct (1 <? count sql ";"); [reflexivity|].
  destruct ((count sql ";" =? 1) && negb (endswith (rstrip sql) (py ";")));
    reflexivity.
Qed.

Lemma stacked_iff (sql : str) :
  stacked sql <->
  (1 <? count sql ";")
  || ((count sql ";" =? 1) && negb (endswith (rstrip sql) (py ";"))) = true.
Proof.
  unfold stacked.
  rewrite orb_true_iff, andb_true_iff, Nat.ltb_lt, Nat.eqb_eq, negb_true_iff.
  split; (intros [H | [H1 H2]]; [left; exact H | right; split; [exact H1|]]).
  - destruct (endswith (rstrip sql) (py ";")) eqn:E; [|reflexivity].
    apply endswith_spec in E as [p E].
    exfalso. exact (H2 _ (rstrip_trailing_trim sql) p E).
  - intros body (ws & E & Hws & Hlast) p ->.
    rewrite E, rstrip_spaces, rstrip_fixed in H2 by (assumption || reflexivity).
    assert (endswith (p ++ [";"%char]) (py ";") = true)
      by (apply endswith_spec; exists p; reflexivity).
    congruence.
Qed.

Lemma single_trailing_semicolon_not_stacked (sql : str) :
  single_trailing_semicolon sql -> ~ stacked sql.
Proof.
  intros (Hc & p & ws & E & Hws) [H | [_ H]]; [lia|].
  apply (H (p ++ [";"%char])) with (p := p); [|reflexivity].
  exists ws. repeat split.
  - rewrite E, app_assoc. reflexivity.
  - exact Hws.
  - intros q c Hq. apply app_inj_tail in Hq as [_ <-]. reflexivity.
Qed.

End Validator.

(** ** Properties of the validator *)

Section ValidatorClaims.



(** C4, as the specification states it, fails: a statement that does
    not start with SELECT and contains a blocked verb is rejected for
    the verb. *)
Lemma start_token_reason_counterexample :
  ~ starts_with_select (py "DROP TABLE t")
  /\ validate_sql_safety (py "DROP TABLE t")
     <> (false, py "Query must start with SELECT").
Proof.
  split.
  - rewrite starts_with_select_iff. vm_compute. discriminate.
  - vm_compute. discriminate.
Qed.

(** C4, amended.  A statement that, once trimmed, does not start with
    SELECT is rejected; the reason is the start-token reason when the
    statement contains no blocked verb, and names a blocked verb of
    the statement otherwise. *)
Theorem not_select_rejected (sql : str) :
  ~ starts_with_select sql ->
  fst (validate_sql_safety sql) = false
  /\ (~ contains_blocked_verb sql ->
      validate_sql_safety sql = (false, py "Query must start with SELECT"))
  /\ (contains_blocked_verb sql ->
      exists k, In k dangerous_keywords /\ standalone_word k sql
                /\ validate_sql_safety sql
                   = (false, py "Dangerous SQL keyword detected: " ++ k)).
Proof.
  intros Hs. rewrite starts_with_select_iff in Hs.
  apply not_true_is_false in Hs.
  rewrite validate_sql_safety_rules, Hs. repeat split.
  - destruct (first_dangerous dangerous_keywords (upper sql)); reflexivity.
  - intros Hn. apply no_blocked_verb in Hn. rewrite Hn. reflexivity.
  - intros Hb. destruct (blocked_verb_found Hb) as (k & before & after & Hl & Hk & _ & E).
    exists k. rewrite E. repeat split; [|assumption].
    rewrite Hl. apply in_or_app. right. left. reflexivity.
Qed.

Lemma not_select_rejected_witness :
  fst (validate_sql_safety (py "SHOW TABLES")) = false
  /\ (~ contains_blocked_verb (py "SHOW TABLES") ->
      validate_sql_safety (py "SHOW TABLES")
      = (false, py "Query must start with SELECT"))
  /\ (contains_blocked_verb (py "SHOW TABLES") ->
      exists k, In k dangerous_keywords /\ standalone_word k (py "SHOW TABLES")
                /\ validate_sql_safety (py "SHOW TABLES")
                   = (false, py "Dangerous SQL keyword detected: " ++ k)).
Proof.
  apply (@not_select_rejected (py "SHOW TABLES")).
  rewrite starts_with_select_iff. vm_compute. discriminate.
Defined.

(** C5, as the specification states it, fails: a stacked statement
    with a blocked verb is rejected for the verb, and a SELECT with a
    single trailing semicolon and a blocked verb is not accepted. *)
Lemma multiple_statements_reason_counterexample :
  stacked (py "SELECT 1; DROP TABLE t;")
  /\ validate_sql_safety (py "SELECT 1; DROP TABLE t;")
     <> (false, py "Multiple SQL statements not allowed").
Proof.
  split.
  - left. vm_compute. lia.
  - vm_compute. discriminate.
Qed.

(** C5, amended.  A statement with more than one semicolon, or with
    one semicolon that is not its last character once trailing white
    space is trimmed, is rejected, for the reason "Multiple SQL
    statements not allowed" when it starts with SELECT and contains no
    blocked verb; a SELECT without a blocked verb and with a single
    trailing semicolon, white space after it or not, is accepted. *)
Theorem statement_stacking_rejected (sql : str) :
  (stacked sql ->
   fst (validate_sql_safety sql) = false
   /\ (starts_with_select sql -> ~ contains_blocked_verb sql ->
       validate_sql_safety sql
       = (false, py "Multiple SQL statements not allowed")))
  /\ (starts_with_select sql -> ~ contains_blocked_verb sql ->
      single_trailing_semicolon sql ->
      validate_sql_safety sql = (true, py "")).
Proof.
  rewrite validate_sql_safety_rules. split.
  - intros Hst. apply stacked_iff in Hst. rewrite Hst. split.
    + destruct (first_dangerous dangerous_keywords (upper sql)); [reflexivity|].
      destruct (startswith (strip (upper sql)) (py "SELECT")); reflexivity.
    + intros Hs Hn. apply starts_with_select_iff in Hs. apply no_blocked_verb in Hn.
      rewrite Hn, Hs. reflexivity.
  - intros Hs Hn Ht. apply starts_with_select_iff in Hs. apply no_blocked_verb in Hn.
    apply single_trailing_semicolon_not_stacked in Ht.
    rewrite stacked_iff in Ht. apply not_true_is_false in Ht.
    rewrite Hn, Hs, Ht. reflexivity.
Qed.

Lemma statement_stacking_rejected_witness :
  (fst (validate_sql_safety (py "SELECT 1;SELECT 2")) = false
   /\ validate_sql_safety (py "SELECT 1;SELECT 2")
      = (false, py "Multiple SQL statements not allowed"))
  /\ validate_sql_safety (py "SELECT * FROM t; ") = (true, py "").
Proof.
  split.
  - destruct (@statement_stacking_rejected (py "SELECT 1;SELECT 2")) as [H _].
    destruct H as [H1 H2].
    + apply stacked_iff. vm_compute. reflexivity.
    + split; [exact H1|]. apply H2.
      * apply starts_with_select_iff. vm_compute. reflexivity.
      * apply no_blocked_verb. vm_compute. reflexivity.
  - apply (@statement_stacking_rejected (py "SELECT * FROM t; ")).
    + apply starts_with_select_iff. vm_compute. reflexivity.
    + apply no_blocked_verb. vm_compute. reflexivity.
    + split; [vm_compute; reflexivity|].
      exists (py "SELECT * FROM t"), (py " "). split; reflexivity.
Defined.

End ValidatorClaims.

(** ** The pooled execution path *)

Section Pooled.

Variable cfg : Config.
Variable be : backend.

Lemma since_app (w w' : world) (evs : list event) :
  trace w' = trace w ++ evs -> since w w' = evs.
Proof. intros E. unfold since. rewrite E. apply skipn_length_app. Qed.

Lemma acquired_app (a b : list event) : acquired (a ++ b) = acquired a ++ acquired b.
Proof. apply flat_map_app. Qed.

Lemma released_app (a b : list event) : released (a ++ b) = released a ++ released b.
Proof. apply flat_map_app. Qed.

Lemma validated_app (a b : list event) : validated (a ++ b) = validated a ++ validated b.
Proof. apply flat_map_app. Qed.

Lemma fetches_app (a b : list event) : fetches (a ++ b) = fetches a + fetches b.
Proof. unfold fetches. rewrite filter_app, length_app. reflexivity. Qed.

Lemma slice_to_nonneg (A : Type) (l : list A) (n : Z) :
  (0 <= n)%Z -> slice_to l n = firstn (Z.to_nat n) l.
Proof.
  intros H. unfold slice_to. destruct (n <? 0)%Z eqn:E; [|reflexivity].
  apply Z.ltb_lt in E. lia.
Qed.



Lemma execute_query_guard_spec (sql : str) (w : world) :
  exists r,
    execute_query_guard sql w
    = (r, World (connection_pool w) (db_calls w) (llm_calls w)
            (trace w ++ map Validate (if validator_applied sql then [sql] else [])))
    /\ (r = Ok tt
        \/ r = Raise (ValueError (py "Unsafe SQL query: "
                                    ++ snd (validate_sql_safety sql))))
    /\ (r = Ok tt <->
        (validator_applied sql = true -> fst (validate_sql_safety sql) = true)).
Proof.
  unfold execute_query_guard. destruct w as [pool n m tr]. simpl.
  destruct (validator_applied sql).
  - unfold bind, emit, log. simpl.
    destruct (validate_sql_safety sql) as [[] msg]; simpl; eexists; split;
      try reflexivity; split; auto.
    + tauto.
    + split; [discriminate|]. intros H. discriminate H. reflexivity.
  - rewrite app_nil_r. eexists; split; [reflexivity|]. split; auto.
    split; auto. discriminate.
Qed.

Lemma execute_query_pooled_spec (sql : str) (params : list value)
    (timeout_seconds : option Z) (w : world) :
  let reply :=
    db be (db_calls w) sql params
       (timeout_or timeout_seconds (MAX_QUERY_TIMEOUT cfg) * 1000)%Z in
  let c := S (db_calls w) in
  exists r evs,
    execute_query_pooled cfg be sql params timeout_seconds w
    = (r, World (connection_pool w) (S (db_calls w)) (llm_calls w)
            (trace w ++ evs))
    /\ released evs = acquired evs
    /\ (acquired evs = []
        \/ acquired evs = [c]
           /\ exists a b d, evs = a ++ Getconn c :: b ++ Putconn c :: d)
    /\ (connection_pool w <> None -> on_getconn reply = None ->
        acquired evs = [c])
    /\ fetches evs = 0
    /\ validated evs = []
    /\ (forall rows, r = Ok rows ->
        exists fetched,
          on_fetchall reply = Ok fetched /\ rows = limit_results cfg fetched)
    /\ (connection_pool w <> None ->
        on_getconn reply = None -> on_cursor reply = None ->
        on_set_timeout reply = None -> on_execute reply = None ->
        forall fetched, on_fetchall reply = Ok fetched ->
                        r = Ok (limit_results cfg fetched)).
Proof.
  intros reply c. unfold execute_query_pooled. fold reply.
  destruct w as [pool n m tr]. unfold execute_query_try, get_connection.
  simpl in *. subst c.
  destruct pool as [used|].
  2:{ exists (Raise (Exception (py "Connection pool not initialized"))), [].
      simpl. rewrite app_nil_r. repeat split; auto; try congruence. }
  destruct (on_getconn reply) as [e|] eqn:Eg.
  { exists (Raise e), []. simpl. rewrite app_nil_r.
    repeat split; auto; try congruence. }
  simpl.
  destruct (on_cursor reply) as [e|] eqn:Ec;
    [|destruct (on_set_timeout reply) as [e|] eqn:Es;
      [|destruct (on_execute reply) as [e|] eqn:Ee;
        [|destruct (on_fetchall reply) as [fetched|e] eqn:Ef]]];
    unfold execute_query_finally, return_connection, log, set_pool; simpl;
    rewrite Nat.eqb_refl; rewrite <- ?app_assoc; simpl;
    eexists; eexists; (split; [reflexivity|]); simpl;
    (repeat split; auto; try congruence; try discriminate).
  all: try (right; split; [reflexivity|]).
  all: try (intros rows [= <-]; eexists; split; reflexivity).
  all: match goal with
       | |- exists a b d, Getconn _ :: ?rest = _ =>
           exists [], (removelast rest), []; reflexivity
       end.
Qed.

Lemma acquired_validate (l : list str) : acquired (map Validate l) = [].
Proof. induction l; auto. Qed.

Lemma released_validate (l : list str) : released (map Validate l) = [].
Proof. induction l; auto. Qed.

Lemma validated_validate (l : list str) : validated (map Validate l) = l.
Proof. induction l; simpl; congruence. Qed.

Lemma fetches_validate (l : list str) : fetches (map Validate l) = 0.
Proof. induction l; auto. Qed.

(** One call of [execute_query]: what it adds to the trace, what it
    leaves as it was, and where its rows come from. *)
Lemma execute_query_spec (sql : str) (params : list value)
    (timeout_seconds : option Z) (w : world) :
  exists r w' evs,
    execute_query cfg be sql params timeout_seconds w = (r, w')
    /\ trace w' = trace w ++ evs
    /\ connection_pool w' = connection_pool w
    /\ llm_calls w' = llm_calls w
    /\ released evs = acquired evs
    /\ (acquired evs = []
        \/ exists c a b d,
             acquired evs = [c] /\ evs = a ++ Getconn c :: b ++ Putconn c :: d)
    /\ fetches evs = 0
    /\ validated evs = (if validator_applied sql then [sql] else [])
    /\ (forall rows, r = Ok rows ->
        exists fetched, rows = limit_results cfg fetched).
Proof.
  unfold execute_query, bind.
  destruct (execute_query_guard_spec sql w) as (r & E & Hr & _). rewrite E.
  set (g := map Validate (if validator_applied sql then [sql] else [])) in *.
  assert (Hgv : validated g = if validator_applied sql then [sql] else [])
    by apply validated_validate.
  assert (Hga : acquired g = []) by apply acquired_validate.
  assert (Hgr : released g = []) by apply released_validate.
  assert (Hgf : fetches g = 0) by apply fetches_validate.
  clearbody g.
  destruct Hr as [-> | ->].
  - destruct (execute_query_pooled_spec sql params timeout_seconds
                (World (connection_pool w) (db_calls w) (llm_calls w) (trace w ++ g)))
      as (r2 & evs & E2 & Hrel & Hacq & _ & Hf & Hv & Hrows & _).
    simpl in *. rewrite E2. exists r2. eexists. exists (g ++ evs). simpl.
    split; [reflexivity|]. split; [symmetry; apply app_assoc|].
    split; [reflexivity|]. split; [reflexivity|].
    rewrite released_app, acquired_app, fetches_app, validated_app.
    rewrite Hgr, Hga, Hgf, Hgv, Hv, Hf, app_nil_r. simpl.
    repeat split; auto.
    + destruct Hacq as [H | (H & a & b & d & ->)]; [left; exact H|].
      right. exists (S (db_calls w)), (g ++ a), b, d. split; [exact H|].
      rewrite <- app_assoc. reflexivity.
    + intros rows Hr. destruct (Hrows rows Hr) as (fetched & _ & ->). eauto.
  - eexists. eexists. exists g. split; [reflexivity|]. simpl.
    rewrite Hgr, Hga, Hgf, Hgv. repeat split; auto. discriminate.
Qed.

End Pooled.

(** ** Properties of the executor *)

Section ExecutorClaims.

Variable cfg : Config.
Variable be : backend.


(** C10.  On every exit path of [execute_query] the connections
    released are exactly the connections acquired: none when the
    statement is refused or no connection is obtained, and otherwise
    the one connection obtained, released once, after it was acquired,
    whatever the later steps do; the pool is left as it was found. *)
Theorem connection_released_exactly_once (sql : str) (params : list value)
    (timeout_seconds : option Z) (w : world) :
  let w' := snd (execute_query cfg be sql params timeout_seconds w) in
  let evs := since w w' in
  released evs = acquired evs
  /\ (acquired evs = []
      \/ exists c a b d,
           acquired evs = [c] /\ evs = a ++ Getconn c :: b ++ Putconn c :: d)
  /\ connection_pool w' = connection_pool w
  /\ (connection_pool w <> None ->
      (validator_applied sql = true -> fst (validate_sql_safety sql) = true) ->
      on_getconn (db be (db_calls w) sql params
                    (timeout_or timeout_seconds (MAX_QUERY_TIMEOUT cfg) * 1000)%Z)
      = None ->
      acquired evs = [S (db_calls w)]).
Proof.
  intros w' evs.
  destruct (execute_query_spec cfg be sql params timeout_seconds w)
    as (r & w2 & evs2 & E & Htr & Hpool & _ & Hrel & Hacq & _ & _ & _).
  assert (Hw : w' = w2) by (unfold w'; rewrite E; reflexivity).
  assert (Hevs : evs = evs2) by (unfold evs; rewrite Hw; apply since_app, Htr).
  split; [rewrite Hevs; exact Hrel|]. split; [rewrite Hevs; exact Hacq|].
  split; [rewrite Hw; exact Hpool|].
  clear r w2 evs2 E Htr Hpool Hrel Hacq Hw Hevs.
  intros Hp Hsafe Hget. unfold evs, w', execute_query, bind.
  destruct (execute_query_guard_spec sql w) as (r1 & E1 & _ & Hr). rewrite E1.
  apply Hr in Hsafe. subst r1.
  destruct (execute_query_pooled_spec cfg be sql params timeout_seconds
              (World (connection_pool w) (db_calls w) (llm_calls w)
                 (trace w ++ map Validate (if validator_applied sql then [sql] else []))))
    as (r2 & evs3 & E2 & _ & _ & Hone & _).
  simpl in *. rewrite E2. simpl.
  rewrite (@since_app w _ (map Validate (if validator_applied sql then [sql] else [])
                             ++ evs3))
    by (simpl; symmetry; apply app_assoc).
  rewrite acquired_app, acquired_validate. simpl. auto.
Qed.

(** C6, for the code as it is.  The column query of [get_schema] does
    not start as the second prefix of [schema_prefixes] does, a line
    feed and not a space following its SELECT: [execute_query] hands it
    to the validator.  The two table queries are not validated. *)
Theorem column_query_is_validated (params : list value)
    (timeout_seconds : option Z) (w : world) :
  let ran sql :=
    since w (snd (execute_query cfg be sql params timeout_seconds w)) in
  validated (ran columns_sql) = [columns_sql]
  /\ validated (ran tables_sql_target) = []
  /\ validated (ran tables_sql_default) = []
  /\ startswith (upper (strip columns_sql)) (py "SELECT" ++ [LF]) = true.
Proof.
  intros ran.
  assert (H : forall sql,
             validated (ran sql) = if validator_applied sql then [sql] else []).
  { intros sql. unfold ran.
    destruct (execute_query_spec cfg be sql params timeout_seconds w)
      as (r & w2 & evs & E & Htr & _ & _ & _ & _ & _ & Hv & _).
    rewrite E. simpl. rewrite (since_app _ _ _ Htr). exact Hv. }
  rewrite !H. repeat split; reflexivity.
Qed.

End ExecutorClaims.


Lemma connection_released_exactly_once_witness :
  acquired (since Demo.up
              (snd (execute_query Demo.cfg (Demo.broken "deadlock detected")
                      (py "SELECT id FROM orders") [] None Demo.up)))
  = [1].
Proof.
  apply (@connection_released_exactly_once Demo.cfg (Demo.broken "deadlock detected")
           (py "SELECT id FROM orders") [] None Demo.up).
  - simpl. discriminate.
  - intros _. vm_compute. reflexivity.
  - reflexivity.
Defined.

(** ** The schema cache *)

Section SchemaCache.

Variable cfg : Config.
Variable be : backend.

Lemma Qltb_lt (a b : Q) : Qltb a b = true <-> (a < b)%Q.
Proof.
  unfold Qltb. rewrite negb_true_iff. split.
  - intros H. apply Qnot_le_lt. intros Hle.
    apply Qle_bool_iff in Hle. congruence.
  - intros H. destruct (Qle_bool b a) eqn:E; [|reflexivity].
    apply Qle_bool_iff in E. exfalso. exact (Qlt_not_le _ _ H E).
Qed.

Lemma Qltb_ge (a b : Q) : Qltb a b = false <-> ~ (a < b)%Q.
Proof.
  rewrite <- Qltb_lt. destruct (Qltb a b); split; congruence.
Qed.

Lemma get_schema_loop_cons (table : row) (more : list row) (acc : list TableInfo) :
  get_schema_loop cfg be (table :: more) acc =
  (table_schema <- lift (getitem table (py "table_schema")) ;;
   table_name <- lift (getitem table (py "table_name")) ;;
   columns <- execute_query cfg be columns_sql
                [table_schema; table_name] (Some 120%Z) ;;
   infos <- lift (column_infos columns) ;;
   get_schema_loop cfg be more
     (acc ++ [{| name := str_of_value table_schema ++ py "."
                           ++ str_of_value table_name;
                 columns := infos |}])).
Proof. reflexivity. Qed.

(** The loop of [get_schema] only adds to the trace, and no fetch of
    its own. *)
Lemma get_schema_loop_spec (tables : list row) :
  forall (acc : list TableInfo) (w : world),
  exists r w' evs,
    get_schema_loop cfg be tables acc w = (r, w')
    /\ trace w' = trace w ++ evs
    /\ fetches evs = 0
    /\ released evs = acquired evs
    /\ connection_pool w' = connection_pool w.
Proof.
  induction tables as [|table more IH]; intros acc w.
  - exists (Ok acc), w, []. simpl. rewrite app_nil_r. repeat split; auto.
  - rewrite get_schema_loop_cons. unfold bind, lift.
    destruct (getitem table (py "table_schema")) as [table_schema|e].
    2:{ exists (Raise e), w, []. rewrite app_nil_r. repeat split; auto. }
    destruct (getitem table (py "table_name")) as [table_name|e].
    2:{ exists (Raise e), w, []. rewrite app_nil_r. repeat split; auto. }
    destruct (execute_query_spec cfg be columns_sql [table_schema; table_name]
                (Some 120%Z) w)
      as (r & w1 & evs & E & Htr & Hpool & _ & Hrel & _ & Hf & _).
    rewrite E. destruct r as [columns|e].
    2:{ exists (Raise e), w1, evs. repeat split; auto. }
    destruct (column_infos columns) as [infos|e].
    2:{ exists (Raise e), w1, evs. repeat split; auto. }
    destruct (IH (acc ++ [{| name := str_of_value table_schema ++ py "."
                                       ++ str_of_value table_name;
                             columns := infos |}]) w1)
      as (r2 & w2 & evs2 & E2 & Htr2 & Hf2 & Hrel2 & Hpool2).
    exists r2, w2, (evs ++ evs2). rewrite E2. split; [reflexivity|].
    rewrite Htr2, Htr, app_assoc, fetches_app, released_app, acquired_app.
    rewrite Hf, Hf2, Hrel, Hrel2, Hpool2, Hpool. repeat split; auto.
Qed.

Lemma get_schema_spec (target_schema : option str) (w : world) :
  exists s w' evs,
    get_schema cfg be target_schema w = (s, w')
    /\ trace w' = trace w ++ FetchSchema :: evs
    /\ fetches evs = 0
    /\ released evs = acquired evs
    /\ connection_pool w' = connection_pool w.
Proof.
  unfold get_schema, get_schema_try, bind.
  set (w0 := log FetchSchema w).
  assert (H : exists r w1 evs,
             (match target_schema with
              | Some (c :: s) =>
                  execute_query cfg be tables_sql_target [VText (c :: s)] (Some 120%Z)
              | _ => execute_query cfg be tables_sql_default [] (Some 120%Z)
              end) w0 = (r, w1)
             /\ trace w1 = trace w0 ++ evs /\ fetches evs = 0
             /\ released evs = acquired evs
             /\ connection_pool w1 = connection_pool w0).
  { destruct target_schema as [[|c s]|];
      match goal with
      | |- context [execute_query cfg be ?q ?ps ?t w0] =>
          destruct (execute_query_spec cfg be q ps t w0)
            as (r & w1 & evs & E & Htr & Hpool & _ & Hrel & _ & Hf & _)
      end; exists r, w1, evs; repeat split; auto. }
  destruct H as (r & w1 & evs & E & Htr & Hf & Hrel & Hpool). rewrite E.
  assert (Htr0 : trace w1 = trace w ++ FetchSchema :: evs).
  { rewrite Htr. unfold w0. simpl. rewrite <- app_assoc. reflexivity. }
  destruct r as [tables|e].
  2:{ exists {| tables := [] |}, w1, evs. repeat split; auto. }
  destruct (get_schema_loop_spec tables [] w1)
    as (r2 & w2 & evs2 & E2 & Htr2 & Hf2 & Hrel2 & Hpool2).
  rewrite E2.
  assert (trace w2 = trace w ++ FetchSchema :: evs ++ evs2).
  { rewrite Htr2, Htr0, <- app_assoc. reflexivity. }
  assert (fetches (evs ++ evs2) = 0) by (rewrite fetches_app; lia).
  assert (released (evs ++ evs2) = acquired (evs ++ evs2))
    by (rewrite released_app, acquired_app; congruence).
  assert (connection_pool w2 = connection_pool w)
    by (rewrite Hpool2, Hpool; reflexivity).
  destruct r2 as [ts|e]; eexists; exists w2, (evs ++ evs2); repeat split; auto.
Qed.

Lemma fetches_get_schema (target_schema : option str) (w0 w : world) (n : nat) :
  fetches (since w0 w) = n ->
  length (trace w0) <= length (trace w) ->
  fetches (since w0 (snd (get_schema cfg be target_schema w))) = S n.
Proof.
  intros Hn Hlen.
  destruct (get_schema_spec target_schema w) as (s & w' & evs & E & Htr & Hf & _).
  rewrite E. simpl. unfold since in *. rewrite Htr.
  rewrite skipn_app.
  replace (length (trace w0) - length (trace w)) with 0 by lia.
  rewrite fetches_app, Hn. simpl. unfold fetches in *. simpl. lia.
Qed.

(** C8.  From a generator that has no snapshot, a call at [t0]
    fetches once; a second call within the 300 seconds that follow
    [t0] returns the same snapshot and leaves the generator and the
    world as they were, so that one fetch was made in all; a call once
    the 300 seconds have elapsed fetches again, returns what the
    warehouse answers then, and caches it with the new time. *)
Theorem schema_cache_ttl (self : QueryGenerator) (w : world) (t0 t1 t2 : Q) :
  schema_cache self = None ->
  (t1 - t0 < cache_duration)%Q ->
  ~ (t2 - t0 < cache_duration)%Q ->
  let first := _get_schema_info cfg be self t0 w in
  let second := _get_schema_info cfg be (snd (fst first)) t1 (snd first) in
  let third := _get_schema_info cfg be (snd (fst second)) t2 (snd second) in
  fetches (since w (snd first)) = 1
  /\ second = first
  /\ fetches (since w (snd second)) = 1
  /\ fetches (since w (snd third)) = 2
  /\ (fst (fst third), snd third)
     = get_schema cfg be (Some (REDSHIFT_SCHEMA cfg)) (snd second)
  /\ schema_cache (snd (fst third)) = Some (fst (fst third))
  /\ schema_cache_time (snd (fst third)) = Some t2.
Proof.
  intros Hnone Hin Hout first second third.
  apply Qltb_lt in Hin. apply Qltb_ge in Hout.
  destruct (get_schema_spec (Some (REDSHIFT_SCHEMA cfg)) w)
    as (s0 & w0 & evs0 & E0 & Htr0 & Hf0 & _).
  assert (Hfirst : first
                   = (s0, {| schema_cache := Some s0; schema_cache_time := Some t0 |}, w0)).
  { unfold first, _get_schema_info. rewrite Hnone, E0. reflexivity. }
  assert (Hsecond : second = first).
  { unfold second. rewrite Hfirst. unfold _get_schema_info. simpl.
    rewrite Hin. reflexivity. }
  destruct (get_schema_spec (Some (REDSHIFT_SCHEMA cfg)) w0)
    as (s2 & w2 & evs2 & E2 & Htr2 & Hf2 & _).
  assert (Hthird : third
                   = (s2, {| schema_cache := Some s2; schema_cache_time := Some t2 |}, w2)).
  { unfold third. rewrite Hsecond, Hfirst. unfold _get_schema_info. simpl.
    rewrite Hout, E2. reflexivity. }
  assert (H1 : fetches (since w w0) = 1).
  { rewrite (since_app _ _ _ Htr0). change (FetchSchema :: evs0) with ([FetchSchema] ++ evs0).
    rewrite fetches_app, Hf0. reflexivity. }
  rewrite Hthird, Hsecond, Hfirst. simpl. repeat split; auto.
  rewrite (@since_app w w2 ((FetchSchema :: evs0) ++ FetchSchema :: evs2)).
  - change (FetchSchema :: evs0) with ([FetchSchema] ++ evs0).
    change (FetchSchema :: evs2) with ([FetchSchema] ++ evs2).
    rewrite !fetches_app, Hf0, Hf2. reflexivity.
  - rewrite Htr2, Htr0, <- app_assoc. reflexivity.
Qed.

(** C3, amended.  When the fetch fails, whether a snapshot was cached
    before or not, [get_schema] answers with the empty schema;
    [_get_schema_info] caches it with the time of the call, in place of
    what was cached, and returns it, raising nothing; the orchestrator
    answers that the schema could not be retrieved. *)
Theorem failed_fetch_replaces_snapshot (self : QueryGenerator)
    (user_query : str) (start_time now end_time : Q) (w w' : world) (e : exn) :
  (forall cached fetched_at,
     schema_cache self = Some cached ->
     schema_cache_time self = Some fetched_at ->
     ~ (now - fetched_at < cache_duration)%Q) ->
  get_schema_try cfg be (Some (REDSHIFT_SCHEMA cfg)) (log FetchSchema w)
  = (Raise e, w') ->
  let empty := {| tables := [] |} in
  let refreshed :=
    {| schema_cache := Some empty; schema_cache_time := Some now |} in
  _get_schema_info cfg be self now w = (empty, refreshed, w')
  /\ generate_and_execute cfg be self user_query start_time now end_time w
     = ({| response :=
             py "Unable to retrieve database schema. Please check your RedShift connection.";
           sql_query := None;
           results := [];
           execution_time := (end_time - start_time)%Q;
           error := Some (py "Schema retrieval failed") |}, refreshed, w').
Proof.
  intros Hstale Hfail empty refreshed.
  assert (H : _get_schema_info cfg be self now w = (empty, refreshed, w')).
  { unfold _get_schema_info, get_schema. rewrite Hfail.
    destruct (schema_cache self) as [cached|] eqn:Ec; [|reflexivity].
    destruct (schema_cache_time self) as [fetched_at|] eqn:Et; [|reflexivity].
    specialize (Hstale cached fetched_at eq_refl eq_refl).
    apply Qltb_ge in Hstale. rewrite Hstale. reflexivity. }
  split; [exact H|]. unfold generate_and_execute. rewrite H. reflexivity.
Qed.

End SchemaCache.

Lemma schema_cache_ttl_witness :
  let run self t w := _get_schema_info Demo.cfg (Demo.warehouse []) self t w in
  let first := run init 0%Q Demo.up in
  let second := run (snd (fst first)) 299%Q (snd first) in
  let third := run (snd (fst second)) 300%Q (snd second) in
  fetches (since Demo.up (snd first)) = 1
  /\ second = first
  /\ fetches (since Demo.up (snd second)) = 1
  /\ fetches (since Demo.up (snd third)) = 2
  /\ length (tables (fst (fst first))) = 1
  /\ length (tables (fst (fst third))) = 2.
Proof.
  intros run first second third.
  destruct (@schema_cache_ttl Demo.cfg (Demo.warehouse []) init Demo.up 0%Q 299%Q 300%Q)
    as (H1 & H2 & H3 & H4 & _).
  - reflexivity.
  - vm_compute. reflexivity.
  - vm_compute. discriminate.
  - split; [exact H1|]. split; [exact H2|]. split; [exact H3|].
    split; [exact H4|]. split; vm_compute; reflexivity.
Defined.

(** C3, as the specification states it, fails: the pool was never
    created, the fetch fails, and the snapshot cached before is neither
    served nor kept. *)
Lemma stale_snapshot_counterexample :
  let be := Demo.warehouse [] in
  let call := _get_schema_info Demo.cfg be Demo.warm 400%Q Demo.down in
  schema_cache Demo.warm = Some Demo.snapshot
  /\ fst (get_schema_try Demo.cfg be (Some (REDSHIFT_SCHEMA Demo.cfg))
            (log FetchSchema Demo.down))
     = Raise (Exception (py "Connection pool not initialized"))
  /\ fst (fst call) <> Demo.snapshot
  /\ schema_cache (snd (fst call)) <> Some Demo.snapshot.
Proof.
  intros be call. split; [reflexivity|]. split; [vm_compute; reflexivity|].
  split; vm_compute; discriminate.
Qed.

Lemma failed_fetch_replaces_snapshot_witness :
  _get_schema_info Demo.cfg (Demo.warehouse []) Demo.warm 400%Q Demo.down
  = ({| tables := [] |},
     {| schema_cache := Some {| tables := [] |};
        schema_cache_time := Some 400%Q |},
     World None 1 0 [FetchSchema]).
Proof.
  apply (@failed_fetch_replaces_snapshot Demo.cfg (Demo.warehouse []) Demo.warm
           (py "how many orders") 0%Q 400%Q 401%Q Demo.down
           (World None 1 0 [FetchSchema])
           (Exception (py "Connection pool not initialized"))).
  - intros cached fetched_at _ [= <-]. vm_compute. discriminate.
  - vm_compute. reflexivity.
Defined.

(** ** The envelope of a failed execution *)

Section Envelope.

Variable cfg : Config.
Variable be : backend.

Lemma dict_get_in (A : Type) (d : list (str * A)) (key : str) (v : A) :
  dict_get d key = Some v -> In v (map snd d).
Proof.
  induction d as [|[k x] d IH]; simpl; [discriminate|].
  destruct (str_eqb k key); [intros [= <-]; auto | auto].
Qed.

Lemma format_error_message_generic (e : exn) :
  In (format_error_message e true) generic_messages.
Proof.
  unfold format_error_message, generic_messages. apply in_or_app.
  destruct (dict_get friendly_messages (exn_type e)) eqn:E.
  - left. exact (dict_get_in _ _ E).
  - right. left. reflexivity.
Qed.

(** C7, amended.  When the execution of the generated statement
    fails with an error that is not a [ValueError], the envelope has
    no statement and no rows, and its [response] is one of the generic
    messages, chosen by the name of the class of the error alone; its
    [error] field is the text of the error itself. *)
Theorem execution_failure_envelope (self self' : QueryGenerator)
    (user_query sql : str) (start_time schema_time end_time : Q)
    (w w1 w2 w3 : world) (schema : schema_info) (e : exn) :
  _get_schema_info cfg be self schema_time w = (schema, self', w1) ->
  tables schema <> [] ->
  generate_sql be w1 = (Ok sql, w2) ->
  execute_query cfg be (sanitize_sql sql) [] None w2 = (Raise e, w3) ->
  isinstance_ValueError e = false ->
  let env :=
    fst (fst (generate_and_execute cfg be self user_query
                start_time schema_time end_time w)) in
  response env = format_error_message e true
  /\ In (response env) generic_messages
  /\ (forall e', exn_type e' = exn_type e ->
                 format_error_message e' true = response env)
  /\ sql_query env = None
  /\ results env = []
  /\ error env = Some (exn_text e).
Proof.
  intros Hschema Htables Hgen Hexec Hfam env.
  assert (Henv : env = {| response := format_error_message e true;
                          sql_query := None;
                          results := [];
                          execution_time := (end_time - start_time)%Q;
                          error := Some (exn_text e) |}).
  { unfold env, generate_and_execute. rewrite Hschema.
    destruct (tables schema) as [|table more]; [contradiction|].
    unfold bind. rewrite Hgen, Hexec, Hfam. reflexivity. }
  rewrite Henv. simpl. repeat split.
  - apply format_error_message_generic.
  - intros e' He'. unfold format_error_message. rewrite He'. reflexivity.
Qed.

End Envelope.

Lemma execution_failure_envelope_witness :
  let env :=
    fst (fst (generate_and_execute Demo.cfg (Demo.broken "relation is locked")
                init (py "how many orders") 0%Q 0%Q 1%Q Demo.up)) in
  response env
  = py "Database connection error. Please check your connection settings."
  /\ sql_query env = None
  /\ results env = []
  /\ error env = Some (py "relation is locked").
Proof.
  intros env.
  pose (be := Demo.broken "relation is locked").
  pose (r1 := _get_schema_info Demo.cfg be init 0%Q Demo.up).
  pose (r2 := generate_sql be (snd r1)).
  pose (r3 := execute_query Demo.cfg be (py "SELECT id FROM orders") [] None (snd r2)).
  destruct (@execution_failure_envelope Demo.cfg be init (snd (fst r1))
              (py "how many orders") (py "SELECT id FROM orders") 0%Q 0%Q 1%Q
              Demo.up (snd r1) (snd r2) (snd r3) (fst (fst r1))
              (Demo.OperationalError "relation is locked"))
    as (H1 & _ & _ & H4 & H5 & H6).
  - vm_compute. reflexivity.
  - vm_compute. discriminate.
  - vm_compute. reflexivity.
  - vm_compute. reflexivity.
  - reflexivity.
  - split; [exact H1|]. split; [exact H4|]. split; [exact H5 | exact H6].
Defined.

(** C7, as the specification states it, fails: the text of the error
    of the warehouse is in the [error] field of the envelope, and two
    failures that differ in that text alone give different
    envelopes. *)
Lemma raw_error_text_counterexample :
  let run (text : string) :=
    fst (fst (generate_and_execute Demo.cfg (Demo.broken text) init
                (py "how many orders") 0%Q 0%Q 1%Q Demo.up)) in
  error (run "password authentication failed for user admin"%string)
  = Some (py "password authentication failed for user admin")
  /\ run "password authentication failed for user admin"%string
     <> run "could not connect to server 10.0.0.7"%string.
Proof.
  intros run. split; [vm_compute; reflexivity | vm_compute; discriminate].
Qed.

(** ** The extractor *)

Section Extractor.


Lemma opens_with_fence_iff (s : str) :
  opens_with_fence s <-> startswith s fence = true.
Proof. symmetry. apply startswith_spec. Qed.

Lemma extract_trimmed (response : str) :
  trimmed (_extract_sql_from_response response).
Proof. unfold _extract_sql_from_response. apply strip_trimmed. Qed.





End Extractor.

(** ** More properties of the validator *)

Section ValidatorMore.

(** X1.  The validator accepts exactly the statements that start with
    SELECT once trimmed, contain no blocked verb as a standalone word
    and have no semicolon but a trailing one; the reason is empty
    exactly when the statement is accepted. *)
Theorem accepted_iff (sql : str) :
  (fst (validate_sql_safety sql) = true <->
   starts_with_select sql /\ ~ contains_blocked_verb sql /\ ~ stacked sql)
  /\ (snd (validate_sql_safety sql) = [] <->
      fst (validate_sql_safety sql) = true).
Proof.
  rewrite validate_sql_safety_rules, starts_with_select_iff, no_blocked_verb,
    stacked_iff.
  destruct (first_dangerous dangerous_keywords (upper sql)) as [k|];
    [|destruct (startswith (strip (upper sql)) (py "SELECT"));
      [destruct ((1 <? count sql ";")
                 || ((count sql ";" =? 1) && negb (endswith (rstrip sql) (py ";"))))|]];
    simpl; intuition (try discriminate; try congruence).
Qed.

Lemma upper_char_semicolon (c : ascii) :
  Ascii.eqb (upper_char c) ";" = Ascii.eqb c ";".
Proof. destruct c as [[] [] [] [] [] [] [] []]; reflexivity. Qed.

Lemma count_upper_semicolon (s : str) : count (upper s) ";" = count s ";".
Proof.
  induction s as [|c s IH]; simpl; [reflexivity|].
  rewrite upper_char_semicolon, IH. reflexivity.
Qed.

Lemma endswith_upper_semicolon (s : str) :
  endswith (upper s) (py ";") = endswith s (py ";").
Proof.
  unfold endswith, upper. rewrite <- map_rev.
  destruct (rev s) as [|c r]; simpl; [reflexivity|].
  rewrite upper_char_semicolon. reflexivity.
Qed.

(** X2.  The verdict does not depend on the case of the letters: two
    statements with the same upper-case form get the same verdict and
    the same reason. *)
Theorem verdict_ignores_case (a b : str) :
  upper a = upper b -> validate_sql_safety a = validate_sql_safety b.
Proof.
  intros H. rewrite !validate_sql_safety_rules, H.
  rewrite <- (count_upper_semicolon a), <- (count_upper_semicolon b), H.
  rewrite <- (endswith_upper_semicolon (rstrip a)),
          <- (endswith_upper_semicolon (rstrip b)).
  rewrite <- !rstrip_upper, H. reflexivity.
Qed.

End ValidatorMore.

Lemma verdict_ignores_case_witness :
  validate_sql_safety (py "Select id From orders;")
  = validate_sql_safety (py "SELECT ID FROM ORDERS;").
Proof.
  apply (@verdict_ignores_case (py "Select id From orders;")
           (py "SELECT ID FROM ORDERS;")).
  reflexivity.
Defined.

(** ** More properties of the utilities *)

Section UtilsMore.

Lemma slice_to_prefix (A : Type) (l : list A) (n : Z) :
  exists k, slice_to l n = firstn k l.
Proof. unfold slice_to. destruct (n <? 0)%Z; eauto. Qed.

(** X3.  [truncate_results] returns a prefix of the rows.  For a
    maximum that is not negative the flag is raised exactly when rows
    were dropped, and then exactly the maximum is kept; for a negative
    maximum the flag is always raised, also when there was no row to
    drop. *)
Theorem truncate_results_prefix (A : Type) (results : list A) (max_rows : Z) :
  let kept := fst (truncate_results results max_rows) in
  let was_truncated := snd (truncate_results results max_rows) in
  (exists dropped, results = kept ++ dropped)
  /\ ((0 <= max_rows)%Z ->
      (was_truncated = true <-> length kept < length results)
      /\ (was_truncated = true -> Z.of_nat (length kept) = max_rows)
      /\ (was_truncated = false -> kept = results))
  /\ ((max_rows < 0)%Z ->
      was_truncated = true
      /\ Z.of_nat (length kept)
         = Z.max 0 (Z.of_nat (length results) + max_rows)).
Proof.
  intros kept was_truncated. unfold kept, was_truncated, truncate_results.
  simpl. split; [|split].
  - destruct (slice_to_prefix results max_rows) as [k ->].
    exists (skipn k results). symmetry. apply firstn_skipn.
  - intros H. rewrite slice_to_nonneg by assumption.
    rewrite length_firstn, Z.ltb_lt. repeat split; try lia.
    intros Hf. apply Z.ltb_ge in Hf. apply firstn_all2. lia.
  - intros H. unfold slice_to.
    assert (E : (max_rows <? 0)%Z = true) by (apply Z.ltb_lt; exact H).
    rewrite E, length_firstn. split; [apply Z.ltb_lt; lia | lia].
Qed.

Lemma str_eqb_eq (a b : str) : str_eqb a b = true <-> a = b.
Proof.
  unfold str_eqb. destruct (list_eq_dec ascii_dec a b); split; congruence.
Qed.

Lemma str_eqb_refl (a : str) : str_eqb a a = true.
Proof. apply str_eqb_eq. reflexivity. Qed.

Lemma str_eqb_neq (a b : str) : str_eqb a b = false <-> a <> b.
Proof.
  unfold str_eqb. destruct (list_eq_dec ascii_dec a b); split; congruence.
Qed.

Lemma dict_get_set (A : Type) (d : list (str * A)) (k k' : str) (v : A) :
  dict_get (dict_set d k v) k'
  = if str_eqb k k' then Some v else dict_get d k'.
Proof.
  induction d as [|[x y] d IH]; simpl.
  - destruct (str_eqb k k'); reflexivity.
  - destruct (str_eqb x k) eqn:Exk; simpl.
    + apply str_eqb_eq in Exk. subst x.
      destruct (str_eqb k k'); reflexivity.
    + destruct (str_eqb x k') eqn:Exk'.
      * apply str_eqb_eq in Exk'. subst x.
        assert (E : str_eqb k k' = false).
        { apply str_eqb_neq. apply str_eqb_neq in Exk. congruence. }
        rewrite E. reflexivity.
      * exact IH.
Qed.

Lemma keys_dict_set (A : Type) (d : list (str * A)) (k : str) (v : A) :
  map fst (dict_set d k v)
  = if existsb (str_eqb k) (map fst d) then map fst d else map fst d ++ [k].
Proof.
  induction d as [|[x y] d IH]; simpl; [reflexivity|].
  destruct (str_eqb x k) eqn:E; simpl.
  - apply str_eqb_eq in E. subst x. rewrite str_eqb_refl. reflexivity.
  - assert (E' : str_eqb k x = false).
    { apply str_eqb_neq. apply str_eqb_neq in E. congruence. }
    rewrite E', IH. simpl. destruct (existsb (str_eqb k) (map fst d)); reflexivity.
Qed.

Lemma NoDup_dict_set (A : Type) (d : list (str * A)) (k : str) (v : A) :
  NoDup (map fst d) -> NoDup (map fst (dict_set d k v)).
Proof.
  intros H. rewrite keys_dict_set.
  destruct (existsb (str_eqb k) (map fst d)) eqn:E; [exact H|].
  apply NoDup_app; [exact H | constructor; [intros [] | constructor] | ].
  intros x Hx [Ex | []]. subst x.
  assert (existsb (str_eqb k) (map fst d) = true).
  { apply existsb_exists. exists k. split; [exact Hx | apply str_eqb_refl]. }
  congruence.
Qed.

Lemma dict_of_fold (A : Type) (pairs : list (str * A)) :
  forall d k,
    NoDup (map fst d) ->
    let d' := fold_left (fun d kv => dict_set d (fst kv) (snd kv)) pairs d in
    NoDup (map fst d')
    /\ dict_get d' k
       = match dict_get (rev pairs) k with
         | Some v => Some v
         | None => dict_get d k
         end.
Proof.
  induction pairs as [|[x y] pairs IH]; intros d k Hd; simpl.
  - auto.
  - destruct (IH (dict_set d x y) k (NoDup_dict_set _ _ _ Hd)) as [Hn Hg].
    split; [exact Hn|]. simpl in Hg. rewrite Hg, dict_get_set.
    clear. induction (rev pairs) as [|[a b] l IHl]; simpl.
    + destruct (str_eqb x k); reflexivity.
    + destruct (str_eqb a k); [reflexivity | exact IHl].
Qed.

(** X4.  [format_query_results] makes one dictionary per row, in
    order.  Its keys are distinct, and the value of a key is the value
    that the row has at the last column of that name, among the columns
    that the row is long enough to reach. *)
Theorem format_query_results_lookup (results : list (list value))
    (description : list column_description) :
  let out := format_query_results results description in
  let columns := map fst description in
  length out = length results
  /\ forall i r,
       nth_error results i = Some r ->
       exists d,
         nth_error out i = Some d
         /\ NoDup (map fst d)
         /\ forall k, dict_get d k = dict_get (rev (combine columns r)) k.
Proof.
  intros out columns.
  assert (E : out = map (fun r => dict_of (combine columns r)) results).
  { unfold out, format_query_results. destruct results; reflexivity. }
  rewrite E. split; [apply length_map|].
  intros i r Hi. exists (dict_of (combine columns r)).
  split; [rewrite nth_error_map, Hi; reflexivity|].
  unfold dict_of. split.
  - apply (dict_of_fold (combine columns r) [] [] (NoDup_nil _)).
  - intros k.
    destruct (dict_of_fold (combine columns r) [] k (NoDup_nil _)) as [_ H].
    simpl in H. rewrite H. destruct (dict_get (rev (combine columns r)) k); reflexivity.
Qed.

End UtilsMore.

Lemma truncate_results_prefix_witness :
  snd (truncate_results (@nil nat) (-1)) = true
  /\ Z.of_nat (length (fst (truncate_results (@nil nat) (-1)))) = 0%Z.
Proof.
  destruct (@truncate_results_prefix nat [] (-1)%Z) as (_ & _ & H).
  apply H. reflexivity.
Defined.

Lemma format_query_results_lookup_witness :
  let results := [[VInt 7; VText (py "open"); VInt 9]] in
  let description := [(py "id", []); (py "status", []); (py "id", [])] in
  exists d,
    nth_error (format_query_results results description) 0 = Some d
    /\ NoDup (map fst d)
    /\ forall k,
         dict_get d k
         = dict_get (rev (combine (map fst description)
                            [VInt 7; VText (py "open"); VInt 9])) k.
Proof.
  intros results description.
  destruct (@format_query_results_lookup results description) as [_ H].
  apply (H 0). reflexivity.
Defined.

(** ** The sanitizer *)

Section Sanitizer.

Lemma split_ws_words (sql : str) :
  forall word,
    no_space word ->
    forall w, In w (split_ws word sql) -> w <> [] /\ no_space w.
Proof.
  induction sql as [|c rest IH]; intros word Hword w Hin; simpl in Hin.
  - destruct word as [|a word']; [destruct Hin|].
    destruct Hin as [<- | []]. split.
    + intros E. apply (f_equal (@rev ascii)) in E.
      rewrite rev_involutive in E. discriminate.
    + intros x Hx. apply Hword. apply in_rev. exact Hx.
  - destruct (isspace c) eqn:Ec.
    + destruct word as [|a word'].
      * apply (IH [] Hword w Hin).
      * destruct Hin as [<- | Hin].
        -- split.
           ++ intros E. apply (f_equal (@rev ascii)) in E.
              rewrite rev_involutive in E. discriminate.
           ++ intros x Hx. apply Hword. apply in_rev. exact Hx.
        -- apply (IH [] (fun x (H : In x []) => match H with end) w Hin).
    + apply (IH (c :: word)); [|exact Hin].
      intros x [<- | Hx]; [exact Ec | apply Hword; exact Hx].
Qed.

Lemma join_cons (sep p : str) (more : list str) :
  join sep (p :: more)
  = match more with [] => p | _ :: _ => p ++ sep ++ join sep more end.
Proof. reflexivity. Qed.

Lemma in_join (sep : str) (words : list str) (c : ascii) :
  In c (join sep words) -> In c sep \/ exists w, In w words /\ In c w.
Proof.
  induction words as [|p more IH]; [intros []|].
  rewrite join_cons. destruct more as [|q more'].
  - intros H. right. exists p. split; [left; reflexivity | exact H].
  - intros H. apply in_app_or in H as [H | H].
    + right. exists p. split; [left; reflexivity | exact H].
    + apply in_app_or in H as [H | H]; [left; exact H|].
      destruct (IH H) as [Hs | (w & Hw & Hc)]; [left; exact Hs|].
      right. exists w. split; [right; exact Hw | exact Hc].
Qed.

Lemma join_last (sep : str) (words : list str) :
  words <> [] ->
  (forall w, In w words -> w <> [] /\ no_space w) ->
  exists p c, join sep words = p ++ [c] /\ isspace c = false.
Proof.
  induction words as [|w more IH]; [contradiction|]. intros _ Hw.
  rewrite join_cons. destruct more as [|q more'].
  - destruct (Hw w (or_introl eq_refl)) as [Hne Hns].
    destruct w as [|c p _] using rev_ind; [contradiction|].
    exists p, c. split; [reflexivity|]. apply Hns. apply in_or_app. right. left. reflexivity.
  - destruct IH as (p & c & E & Hc); [discriminate | intros x Hx; apply Hw; right; exact Hx|].
    exists (w ++ sep ++ p), c. rewrite E, !app_assoc. auto.
Qed.

Lemma join_trimmed (words : list str) :
  (forall w, In w words -> w <> [] /\ no_space w) ->
  trimmed (join (py " ") words).
Proof.
  intros Hw. split.
  - intros c r E. destruct words as [|w more]; [discriminate|].
    destruct (Hw w (or_introl eq_refl)) as [Hne Hns].
    destruct w as [|a w']; [contradiction|].
    rewrite join_cons in E. apply Hns.
    destruct more; injection E as <- _; left; reflexivity.
  - intros p c E. destruct words as [|w more]; [destruct p; discriminate|].
    destruct (@join_last (py " ") (w :: more)) as (p' & c' & E' & Hc');
      [discriminate | exact Hw |].
    rewrite E' in E. apply app_inj_tail in E as [_ <-]. exact Hc'.
Qed.

(** X5.  What [sanitize_sql] returns is words separated by one space
    each: it has no white space at either end, and every white space
    character in it is a space that stands between two words. *)
Theorem sanitize_sql_single_spaced (sql : str) :
  exists words,
    sanitize_sql sql = join (py " ") words
    /\ (forall w, In w words -> w <> [] /\ no_space w)
    /\ trimmed (sanitize_sql sql)
    /\ (forall c, In c (sanitize_sql sql) -> isspace c = true -> c = " "%char).
Proof.
  unfold sanitize_sql.
  set (words := split_ws [] (strip_block_comments 0 (strip_line_comments false sql))).
  assert (Hw : forall w, In w words -> w <> [] /\ no_space w).
  { apply split_ws_words. intros x []. }
  assert (E : strip (join (py " ") words) = join (py " ") words)
    by (apply trimmed_strip, join_trimmed, Hw).
  exists words. rewrite E. split; [reflexivity|]. split; [exact Hw|].
  split; [apply join_trimmed, Hw|].
  intros c Hc Hs. apply in_join in Hc as [[<- | []] | (w & Hin & Hc)]; [reflexivity|].
  destruct (Hw w Hin) as [_ Hns]. rewrite (Hns c Hc) in Hs. discriminate.
Qed.

Lemma partition_unfold (s sep : str) :
  partition s sep =
  if startswith s sep then Some ([], skipn (length sep) s)
  else match s with
       | [] => None
       | c :: s' =>
           match partition s' sep with
           | Some (before, after) => Some (c :: before, after)
           | None => None
           end
       end.
Proof. destruct s; reflexivity. Qed.

Lemma contains_cons_false (c : ascii) (s sep : str) :
  contains (c :: s) sep = false ->
  startswith (c :: s) sep = false /\ contains s sep = false.
Proof.
  unfold contains. rewrite (partition_unfold (c :: s)).
  destruct (startswith (c :: s) sep); [discriminate|].
  destruct (partition s sep) as [[b a]|]; [discriminate | auto].
Qed.

Lemma strip_line_comments_none (sql : str) :
  contains sql (py "--") = false -> strip_line_comments false sql = sql.
Proof.
  induction sql as [|c rest IH]; [reflexivity|]. intros H.
  apply contains_cons_false in H as [H1 H2].
  change (strip_line_comments false (c :: rest))
    with (if startswith (c :: rest) (py "--") then strip_line_comments true rest
          else c :: strip_line_comments false rest).
  rewrite H1, (IH H2). reflexivity.
Qed.

Lemma strip_block_comments_none (sql : str) :
  contains sql (py "/*") = false -> strip_block_comments 0 sql = sql.
Proof.
  induction sql as [|c rest IH]; [reflexivity|]. intros H.
  apply contains_cons_false in H as [H1 H2].
  change (strip_block_comments 0 (c :: rest))
    with (if startswith (c :: rest) (py "/*") then
            match partition (skipn 2 (c :: rest)) (py "*/") with
            | Some (body, _) => strip_block_comments (1 + length body + 2) rest
            | None => c :: strip_block_comments 0 rest
            end
          else c :: strip_block_comments 0 rest).
  rewrite H1, (IH H2). reflexivity.
Qed.

Lemma filter_no_space (w : str) : no_space w -> filter not_space w = w.
Proof.
  induction w as [|c w IH]; [reflexivity|]. intros H. simpl.
  unfold not_space at 1. rewrite (H c (or_introl eq_refl)). simpl.
  f_equal. apply IH. intros x Hx. apply H. right. exact Hx.
Qed.

Lemma filter_join (p : str) (more : list str) :
  filter not_space (join (py " ") (p :: more))
  = filter not_space p ++ filter not_space (join (py " ") more).
Proof.
  rewrite join_cons. destruct more as [|q more'].
  - simpl. rewrite app_nil_r. reflexivity.
  - rewrite !filter_app. reflexivity.
Qed.

Lemma filter_split_ws (sql : str) :
  forall word,
    no_space word ->
    filter not_space (join (py " ") (split_ws word sql))
    = rev word ++ filter not_space sql.
Proof.
  induction sql as [|c rest IH]; intros word Hword.
  - simpl. rewrite app_nil_r. destruct word as [|a word']; [reflexivity|].
    simpl join. apply filter_no_space. intros x Hx. apply Hword, in_rev, Hx.
  - simpl split_ws. simpl filter. unfold not_space at 2.
    destruct (isspace c) eqn:Ec; simpl negb.
    + destruct word as [|a word'].
      * apply (IH [] Hword).
      * rewrite filter_join, (IH []) by (intros x []).
        rewrite filter_no_space; [reflexivity|].
        intros x Hx. apply Hword, in_rev, Hx.
    + rewrite IH.
      * simpl. rewrite <- app_assoc. reflexivity.
      * intros x [<- | Hx]; [exact Ec | apply Hword; exact Hx].
Qed.

(** X6.  On a statement without a comment opener (two dashes, or a
    slash and a star), [sanitize_sql] touches white space only: the
    other characters of the statement come out all, and in order. *)
Theorem sanitize_sql_keeps_text (sql : str) :
  contains sql (py "--") = false ->
  contains sql (py "/*") = false ->
  sanitize_sql sql = join (py " ") (split_ws [] sql)
  /\ filter not_space (sanitize_sql sql) = filter not_space sql.
Proof.
  intros Hl Hb.
  assert (E : sanitize_sql sql = join (py " ") (split_ws [] sql)).
  { unfold sanitize_sql.
    rewrite (strip_line_comments_none _ Hl), (strip_block_comments_none _ Hb).
    apply trimmed_strip, join_trimmed, split_ws_words. intros x []. }
  split; [exact E|]. rewrite E. apply (@filter_split_ws sql []). intros x [].
Qed.

End Sanitizer.

Lemma sanitize_sql_keeps_text_witness :
  let sql := py "  SELECT id," ++ [LF] ++ py "   total  FROM orders " in
  sanitize_sql sql = join (py " ") (split_ws [] sql)
  /\ filter not_space (sanitize_sql sql) = filter not_space sql.
Proof.
  intros sql. apply (@sanitize_sql_keeps_text sql); reflexivity.
Defined.

(** ** More properties of the extractor *)

Section ExtractorMore.

Lemma partition_prefix (p r : str) : partition (p ++ r) p = Some ([], r).
Proof.
  rewrite partition_unfold, startswith_app, skipn_length_app. reflexivity.
Qed.

Lemma partition_char (c : ascii) (pre post : str) :
  ~ In c pre -> partition (pre ++ c :: post) [c] = Some (pre, post).
Proof.
  induction pre as [|a pre IH]; intros H.
  - apply (partition_prefix [c] post).
  - rewrite partition_unfold.
    assert (Ha : Ascii.eqb a c = false).
    { apply Ascii.eqb_neq. intros ->. apply H. left. reflexivity. }
    simpl. rewrite Ha. simpl. rewrite IH; [reflexivity|].
    intros Hin. apply H. right. exact Hin.
Qed.

Lemma rpartition_suffix (body sep : str) :
  rpartition (body ++ sep) sep = Some (body, []).
Proof.
  unfold rpartition. rewrite rev_app_distr, partition_prefix, rev_involutive.
  reflexivity.
Qed.

Lemma strip_between (ws1 ws2 : str) (a b : ascii) (mid : str) :
  forallb isspace ws1 = true -> forallb isspace ws2 = true ->
  isspace a = false -> isspace b = false ->
  strip (ws1 ++ (a :: mid ++ [b]) ++ ws2) = a :: mid ++ [b].
Proof.
  intros H1 H2 Ha Hb. unfold strip.
  rewrite lstrip_spaces by assumption.
  change ((a :: mid ++ [b]) ++ ws2) with (a :: (mid ++ [b]) ++ ws2).
  rewrite lstrip_fixed by assumption.
  change (a :: (mid ++ [b]) ++ ws2) with ((a :: mid ++ [b]) ++ ws2).
  rewrite rstrip_spaces by assumption.
  change (a :: mid ++ [b]) with ((a :: mid) ++ [b]).
  apply rstrip_fixed. exact Hb.
Qed.

(** X7.  A fenced block, white space around it or not, gives its body,
    trimmed: the line of the opening fence goes with whatever follows
    the fence on it, and the closing fence goes. *)
Theorem extract_fenced_block (ws1 lang body ws2 : str) :
  forallb isspace ws1 = true ->
  forallb isspace ws2 = true ->
  ~ In LF lang ->
  _extract_sql_from_response
    (ws1 ++ (fence ++ lang ++ [LF] ++ body ++ fence) ++ ws2)
  = strip body.
Proof.
  intros H1 H2 Hlang. unfold _extract_sql_from_response.
  assert (E : strip (ws1 ++ (fence ++ lang ++ [LF] ++ body ++ fence) ++ ws2)
              = fence ++ lang ++ [LF] ++ body ++ fence).
  { replace (fence ++ lang ++ [LF] ++ body ++ fence)
      with ("`"%char :: (py "``" ++ lang ++ [LF] ++ body ++ py "``") ++ ["`"%char]).
    - apply strip_between; auto.
    - unfold fence. simpl. do 3 f_equal.
      repeat (rewrite <- app_assoc; simpl). reflexivity. }
  rewrite E, startswith_app.
  replace (fence ++ lang ++ [LF] ++ body ++ fence)
    with ((fence ++ lang) ++ LF :: (body ++ fence))
    by (rewrite <- app_assoc; reflexivity).
  rewrite partition_char.
  - assert (Hend : endswith (body ++ fence) fence = true)
      by (apply endswith_spec; exists body; reflexivity).
    rewrite Hend, rpartition_suffix. reflexivity.
  - intros Hin. apply in_app_or in Hin as [Hin | Hin]; [|exact (Hlang Hin)].
    unfold fence in Hin. simpl in Hin.
    destruct Hin as [Hin | [Hin | [Hin | []]]]; discriminate Hin.
Qed.

(** X8.  What is extracted never has white space at either end; and a
    response that, once trimmed, does not open with a fence is only
    trimmed. *)
Theorem extract_trims (response : str) :
  trimmed (_extract_sql_from_response response)
  /\ (~ opens_with_fence (strip response) ->
      _extract_sql_from_response response = strip response).
Proof.
  split; [apply extract_trimmed|].
  intros H. unfold _extract_sql_from_response.
  rewrite opens_with_fence_iff in H. apply not_true_is_false in H.
  rewrite H. apply strip_idempotent.
Qed.

End ExtractorMore.

Lemma extract_fenced_block_witness :
  _extract_sql_from_response
    (py " " ++ (fence ++ py "sql" ++ [LF]
                ++ (py "SELECT id" ++ [LF] ++ py "FROM orders" ++ [LF])
                ++ fence) ++ [LF])
  = strip (py "SELECT id" ++ [LF] ++ py "FROM orders" ++ [LF]).
Proof.
  apply (@extract_fenced_block (py " ") (py "sql")
           (py "SELECT id" ++ [LF] ++ py "FROM orders" ++ [LF]) [LF]).
  - reflexivity.
  - reflexivity.
  - simpl. intros [H | [H | [H | []]]]; discriminate H.
Defined.

Lemma extract_trims_witness :
  _extract_sql_from_response (py "  SELECT 1 ") = strip (py "  SELECT 1 ").
Proof.
  apply (@extract_trims (py "  SELECT 1 ")).
  rewrite opens_with_fence_iff. vm_compute. discriminate.
Defined.

(** ** More properties of the executor *)

Section ExecutorMore.

Variable cfg : Config.
Variable be : backend.

(** The events of the pooled part, step by step. *)
Lemma execute_query_pooled_events (sql : str) (params : list value)
    (timeout_seconds : option Z) (w : world) :
  let ms := (timeout_or timeout_seconds (MAX_QUERY_TIMEOUT cfg) * 1000)%Z in
  let reply := db be (db_calls w) sql params ms in
  let c := S (db_calls w) in
  exists r body,
    execute_query_pooled cfg be sql params timeout_seconds w
    = (r, World (connection_pool w) (S (db_calls w)) (llm_calls w)
            (trace w ++ body))
    /\ In body (pooled_shapes c ms sql params)
    /\ (connection_pool w <> None ->
        forall rows, reply = fetched_rows rows ->
        r = Ok (limit_results cfg rows)
        /\ body = [Getconn c; CursorOpen c; SetTimeout c ms; Execute c sql params;
                   Fetchall c; CursorClose c; Putconn c])
    /\ (connection_pool w = None ->
        r = Raise (Exception (py "Connection pool not initialized")) /\ body = []).
Proof.
  intros ms reply c. unfold execute_query_pooled. fold ms. fold reply.
  destruct w as [pool n m tr]. unfold execute_query_try, get_connection.
  simpl in *. subst c.
  destruct pool as [used|].
  2:{ exists (Raise (Exception (py "Connection pool not initialized"))), [].
      simpl. rewrite app_nil_r. repeat split; auto; congruence. }
  destruct (on_getconn reply) as [e|] eqn:Eg.
  { exists (Raise e), []. simpl. rewrite app_nil_r.
    split; [reflexivity|]. split; [left; reflexivity|]. split; [|congruence].
    intros _ rows Hr. rewrite Hr in Eg. discriminate Eg. }
  simpl.
  destruct (on_cursor reply) as [e|] eqn:Ec;
    [|destruct (on_set_timeout reply) as [e|] eqn:Es;
      [|destruct (on_execute reply) as [e|] eqn:Ee;
        [|destruct (on_fetchall reply) as [fetched|e] eqn:Ef]]];
    unfold execute_query_finally, return_connection, log, set_pool; simpl;
    rewrite Nat.eqb_refl; rewrite <- ?app_assoc; simpl;
    eexists; eexists; (split; [reflexivity|]); simpl;
    (split; [tauto|]); (split; [|congruence]); intros _ rows Hr.
  - rewrite Hr in Ec. discriminate Ec.
  - rewrite Hr in Es. discriminate Es.
  - rewrite Hr in Ee. discriminate Ee.
  - rewrite Hr in Ef. injection Ef as <-. split; reflexivity.
  - rewrite Hr in Ef. discriminate Ef.
Qed.

Lemma execute_query_refused (sql : str) (params : list value)
    (timeout_seconds : option Z) (w : world) :
  validator_applied sql = true ->
  fst (validate_sql_safety sql) = false ->
  execute_query cfg be sql params timeout_seconds w
  = (Raise (ValueError (py "Unsafe SQL query: " ++ snd (validate_sql_safety sql))),
     log (Validate sql) w).
Proof.
  intros Ha Hs. unfold execute_query, bind.
  destruct (execute_query_guard_spec sql w) as (r & E & Hr & Hiff). rewrite E, Ha.
  destruct Hr as [-> | ->]; [|reflexivity].
  destruct Hiff as [Hiff _]. rewrite (Hiff eq_refl Ha) in Hs. discriminate.
Qed.

(** X9.  What the driver sees of one call of [execute_query]: after
    the validation, if any, one of five sequences.  The timeout of the
    session is set before the statement runs; the statement runs at
    most once; every cursor that was opened is closed, and closed
    before its connection goes back to the pool. *)
Theorem driver_protocol (sql : str) (params : list value)
    (timeout_seconds : option Z) (w : world) :
  let w' := snd (execute_query cfg be sql params timeout_seconds w) in
  let c := S (db_calls w) in
  let ms := (timeout_or timeout_seconds (MAX_QUERY_TIMEOUT cfg) * 1000)%Z in
  exists body,
    since w w'
    = map Validate (if validator_applied sql then [sql] else []) ++ body
    /\ In body (pooled_shapes c ms sql params).
Proof.
  intros w' c ms. unfold w', execute_query, bind.
  destruct (execute_query_guard_spec sql w) as (r & E & Hr & _). rewrite E.
  destruct Hr as [-> | ->].
  - destruct (execute_query_pooled_events sql params timeout_seconds
                (World (connection_pool w) (db_calls w) (llm_calls w)
                   (trace w ++ map Validate (if validator_applied sql then [sql] else []))))
      as (r2 & body & E2 & Hin & _).
    simpl in *. rewrite E2. exists body. split; [|exact Hin].
    apply since_app. simpl. symmetry. apply app_assoc.
  - exists []. split; [|left; reflexivity].
    apply since_app. simpl. rewrite app_nil_r. reflexivity.
Qed.

(** X10.  A statement that starts as the schema queries do is not
    validated: with a pool and a driver that answers, it runs and its
    rows come back, whatever else it contains. *)
Theorem schema_prefix_skips_validation (sql : str) (params : list value)
    (timeout_seconds : option Z) (w : world) (rows : list row) :
  startswith_any (upper (strip sql)) schema_prefixes = true ->
  connection_pool w <> None ->
  let c := S (db_calls w) in
  let ms := (timeout_or timeout_seconds (MAX_QUERY_TIMEOUT cfg) * 1000)%Z in
  db be (db_calls w) sql params ms = fetched_rows rows ->
  exists w',
    execute_query cfg be sql params timeout_seconds w
    = (Ok (limit_results cfg rows), w')
    /\ since w w'
       = [Getconn c; CursorOpen c; SetTimeout c ms; Execute c sql params;
          Fetchall c; CursorClose c; Putconn c].
Proof.
  intros Hprefix Hpool c ms Hreply.
  assert (Ha : validator_applied sql = false)
    by (unfold validator_applied; rewrite Hprefix; reflexivity).
  unfold execute_query, bind.
  destruct (execute_query_guard_spec sql w) as (r & E & _ & Hr). rewrite E, Ha.
  assert (r = Ok tt) by (apply Hr; rewrite Ha; discriminate). subst r.
  destruct (execute_query_pooled_events sql params timeout_seconds
              (World (connection_pool w) (db_calls w) (llm_calls w)
                 (trace w ++ map Validate [])))
    as (r2 & body & E2 & _ & Hok & _).
  simpl in *. rewrite E2.
  destruct (Hok Hpool rows Hreply) as [-> ->].
  eexists. split; [reflexivity|].
  apply since_app. simpl. rewrite app_nil_r. reflexivity.
Qed.

End ExecutorMore.

Lemma schema_prefix_skips_validation_witness :
  let sql := py "SELECT column_name FROM t; DROP TABLE orders" in
  fst (validate_sql_safety sql) = false
  /\ exists w',
       execute_query Demo.cfg Samples.smuggler sql [] None Demo.up
       = (Ok (limit_results Demo.cfg [Demo.order_row 1]), w')
       /\ since Demo.up w'
          = [Getconn 1; CursorOpen 1; SetTimeout 1 30000; Execute 1 sql [];
             Fetchall 1; CursorClose 1; Putconn 1].
Proof.
  intros sql. split; [vm_compute; reflexivity|].
  apply (@schema_prefix_skips_validation Demo.cfg Samples.smuggler sql [] None
           Demo.up [Demo.order_row 1]).
  - vm_compute. reflexivity.
  - simpl. discriminate.
  - vm_compute. reflexivity.
Defined.

(** ** More properties of the schema fetch *)

Section SchemaMore.

Variable cfg : Config.
Variable be : backend.

Lemma timeouts_app (a b : list event) : timeouts (a ++ b) = timeouts a ++ timeouts b.
Proof. apply flat_map_app. Qed.

Lemma timeouts_validate (l : list str) : timeouts (map Validate l) = [].
Proof. induction l; auto. Qed.

Lemma timeouts_shapes (c : conn) (ms : Z) (sql : str) (params : list value)
    (body : list event) :
  In body (pooled_shapes c ms sql params) ->
  Forall (fun t => t = ms) (timeouts body).
Proof.
  intros H. simpl in H.
  destruct H as [<- | [<- | [<- | [<- | [<- | []]]]]]; simpl; repeat constructor.
Qed.

(** Where one call of [execute_query] leaves the world. *)
Lemma execute_query_world (sql : str) (params : list value)
    (timeout_seconds : option Z) (w : world) :
  let ms := (timeout_or timeout_seconds (MAX_QUERY_TIMEOUT cfg) * 1000)%Z in
  exists r k evs,
    execute_query cfg be sql params timeout_seconds w
    = (r, World (connection_pool w) (db_calls w + k) (llm_calls w)
            (trace w ++ evs))
    /\ (forall rows, r = Ok rows -> k = 1)
    /\ Forall (fun t => t = ms) (timeouts evs).
Proof.
  intros ms. unfold execute_query, bind.
  destruct (execute_query_guard_spec sql w) as (r & E & Hr & _). rewrite E.
  set (pre := map Validate (if validator_applied sql then [sql] else [])) in *.
  assert (Hpre : timeouts pre = []) by apply timeouts_validate.
  destruct Hr as [-> | ->].
  - destruct (execute_query_pooled_events cfg be sql params timeout_seconds
                (World (connection_pool w) (db_calls w) (llm_calls w) (trace w ++ pre)))
      as (r2 & body & E2 & Hin & _).
    simpl in *. rewrite E2. exists r2, 1, (pre ++ body).
    rewrite Nat.add_1_r, app_assoc. split; [reflexivity|]. split; [auto|].
    rewrite timeouts_app, Hpre. simpl. eapply timeouts_shapes. exact Hin.
  - eexists. exists 0, pre. rewrite Nat.add_0_r. split; [reflexivity|].
    split; [discriminate|]. rewrite Hpre. constructor.
Qed.

Lemma column_infos_described (rows : list row) :
  forall infos, column_infos rows = Ok infos -> Forall2 described_as rows infos.
Proof.
  induction rows as [|r rows IH]; intros infos H.
  - injection H as <-. constructor.
  - change (column_infos (r :: rows)) with
      (match getitem r (py "column_name") with
       | Raise e => Raise e
       | Ok n =>
       match getitem r (py "data_type") with
       | Raise e => Raise e
       | Ok t =>
       match getitem r (py "is_nullable") with
       | Raise e => Raise e
       | Ok nullable =>
       match column_infos rows with
       | Raise e => Raise e
       | Ok infos =>
           Ok ({| col_name := n; col_type := t;
                  col_nullable := value_eqb nullable (VText (py "YES")) |}
               :: infos)
       end end end end) in H.
    destruct (getitem r (py "column_name")) as [n|] eqn:En; [|discriminate].
    destruct (getitem r (py "data_type")) as [t|] eqn:Et; [|discriminate].
    destruct (getitem r (py "is_nullable")) as [nullable|] eqn:Eu; [|discriminate].
    destruct (column_infos rows) as [more|]; [|discriminate].
    injection H as <-. constructor; [|apply IH; reflexivity].
    unfold described_as. cbn [col_name col_type col_nullable].
    rewrite En, Et, Eu. eauto.
Qed.

Lemma get_schema_loop_world (tables : list row) :
  forall (acc : list TableInfo) (w : world),
  exists r k evs,
    get_schema_loop cfg be tables acc w
    = (r, World (connection_pool w) (db_calls w + k) (llm_calls w)
            (trace w ++ evs))
    /\ Forall (fun t => t = 120000%Z) (timeouts evs)
    /\ (forall ts, r = Ok ts ->
        k = length tables
        /\ exists new, ts = acc ++ new /\ Forall2 entry_of tables new).
Proof.
  induction tables as [|table more IH]; intros acc w.
  - exists (Ok acc), 0, []. simpl. rewrite Nat.add_0_r, app_nil_r.
    destruct w. split; [reflexivity|]. split; [constructor|].
    intros ts [= <-]. split; [reflexivity|]. exists []. rewrite app_nil_r.
    split; [reflexivity | constructor].
  - rewrite get_schema_loop_cons. unfold bind, lift.
    destruct (getitem table (py "table_schema")) as [table_schema|e] eqn:Es.
    2:{ exists (Raise e), 0, []. rewrite Nat.add_0_r, app_nil_r. destruct w.
        split; [reflexivity|]. split; [constructor | discriminate]. }
    destruct (getitem table (py "table_name")) as [table_name|e] eqn:En.
    2:{ exists (Raise e), 0, []. rewrite Nat.add_0_r, app_nil_r. destruct w.
        split; [reflexivity|]. split; [constructor | discriminate]. }
    destruct (execute_query_world columns_sql [table_schema; table_name]
                (Some 120%Z) w) as (r & k & evs & E & Hk & Ht).
    rewrite E. destruct r as [column_rows|e].
    2:{ exists (Raise e), k, evs. split; [reflexivity|].
        split; [exact Ht | discriminate]. }
    destruct (column_infos column_rows) as [infos|e] eqn:Ec.
    2:{ exists (Raise e), k, evs. split; [reflexivity|].
        split; [exact Ht | discriminate]. }
    rewrite (Hk column_rows eq_refl) in *.
    match goal with
    | |- context [get_schema_loop cfg be more ?a ?v] =>
        destruct (IH a v) as (r2 & k2 & evs2 & E2 & Ht2 & Hok2)
    end.
    cbn [connection_pool db_calls llm_calls trace] in E2.
    rewrite E2. exists r2, (1 + k2), (evs ++ evs2).
    rewrite Nat.add_assoc, app_assoc. split; [reflexivity|].
    split; [rewrite timeouts_app; apply Forall_app; split; assumption|].
    intros ts Hr. destruct (Hok2 ts Hr) as (-> & new & -> & Hnew).
    split; [reflexivity|].
    eexists (_ :: new). rewrite <- app_assoc. split; [reflexivity|].
    constructor; [|exact Hnew]. split.
    + exists table_schema, table_name. auto.
    + exists column_rows. apply column_infos_described. exact Ec.
Qed.

Lemma get_schema_world (target_schema : option str) (w : world) :
  exists s k evs,
    get_schema cfg be target_schema w
    = (s, World (connection_pool w) (db_calls w + k) (llm_calls w)
            (trace w ++ FetchSchema :: evs))
    /\ Forall (fun t => t = 120000%Z) (timeouts evs)
    /\ (tables s <> [] ->
        k = 1 + length (tables s)
        /\ exists listed, Forall2 entry_of listed (tables s)).
Proof.
  unfold get_schema, get_schema_try, bind.
  set (w0 := log FetchSchema w).
  assert (H : exists r k evs,
             (match target_schema with
              | Some (c :: s) =>
                  execute_query cfg be tables_sql_target [VText (c :: s)] (Some 120%Z)
              | _ => execute_query cfg be tables_sql_default [] (Some 120%Z)
              end) w0
             = (r, World (connection_pool w0) (db_calls w0 + k) (llm_calls w0)
                     (trace w0 ++ evs))
             /\ (forall rows, r = Ok rows -> k = 1)
             /\ Forall (fun t => t = 120000%Z) (timeouts evs)).
  { destruct target_schema as [[|c s]|]; apply execute_query_world. }
  destruct H as (r & k & evs & E & Hk & Ht). rewrite E.
  destruct r as [listed|e].
  2:{ exists {| tables := [] |}, k, evs. unfold w0. simpl. rewrite <- app_assoc.
      split; [reflexivity|]. split; [exact Ht|]. intros H. contradiction H. reflexivity. }
  rewrite (Hk listed eq_refl) in *.
  match goal with
  | |- context [get_schema_loop cfg be listed [] ?v] =>
      destruct (get_schema_loop_world listed [] v) as (r2 & k2 & evs2 & E2 & Ht2 & Hok2)
  end.
  cbn [connection_pool db_calls llm_calls trace] in E2. rewrite E2.
  assert (Htr : (trace w0 ++ evs) ++ evs2 = trace w ++ FetchSchema :: evs ++ evs2).
  { unfold w0. simpl. rewrite <- !app_assoc. reflexivity. }
  assert (Hts : Forall (fun t => t = 120000%Z) (timeouts (evs ++ evs2)))
    by (rewrite timeouts_app; apply Forall_app; split; assumption).
  destruct r2 as [ts|e].
  - exists {| tables := ts |}, (1 + k2), (evs ++ evs2).
    rewrite Htr, Nat.add_assoc.
    split; [reflexivity|]. split; [exact Hts|]. intros _.
    destruct (Hok2 ts eq_refl) as (-> & new & -> & Hnew). simpl.
    split; [rewrite (Forall2_length Hnew); reflexivity|]. exists listed. exact Hnew.
  - exists {| tables := [] |}, (1 + k2), (evs ++ evs2).
    rewrite Htr, Nat.add_assoc.
    split; [reflexivity|]. split; [exact Hts|]. intros H. contradiction H. reflexivity.
Qed.


(** X12.  Whether it succeeds or fails on the way, [get_schema]
    returns every connection it takes and leaves the pool as it found
    it; every statement it runs has a session timeout of two minutes,
    whatever the configured one is. *)
Theorem get_schema_housekeeping (target_schema : option str) (w : world) :
  let w' := snd (get_schema cfg be target_schema w) in
  released (since w w') = acquired (since w w')
  /\ connection_pool w' = connection_pool w
  /\ Forall (fun t => t = 120000%Z) (timeouts (since w w')).
Proof.
  intros w'. unfold w'.
  destruct (get_schema_spec cfg be target_schema w)
    as (s & w1 & evs & E & Htr & _ & Hrel & Hpool).
  destruct (get_schema_world target_schema w) as (s2 & k & evs2 & E2 & Ht & _).
  rewrite E in E2. injection E2 as _ E2. rewrite E. simpl.
  split; [|split; [exact Hpool|]].
  - rewrite (since_app _ _ _ Htr). exact Hrel.
  - rewrite E2. rewrite (@since_app w _ (FetchSchema :: evs2)) by reflexivity.
    exact Ht.
Qed.

End SchemaMore.


(** ** More properties of the orchestrator *)

Section OrchestratorMore.

Variable cfg : Config.
Variable be : backend.

(** X13.  A failed fetch is remembered like a successful one: for the
    300 seconds that follow it, every question is answered that the
    schema could not be retrieved, without a call to the warehouse or
    to the model, whatever the warehouse would answer by then. *)
Theorem failed_fetch_is_remembered (self : QueryGenerator) (be2 : backend)
    (user_query : str) (t0 t1 start_time end_time : Q)
    (w w' w2 : world) (e : exn) :
  (forall cached fetched_at,
     schema_cache self = Some cached ->
     schema_cache_time self = Some fetched_at ->
     ~ (t0 - fetched_at < cache_duration)%Q) ->
  get_schema_try cfg be (Some (REDSHIFT_SCHEMA cfg)) (log FetchSchema w)
  = (Raise e, w') ->
  (t1 - t0 < cache_duration)%Q ->
  let after := snd (fst (_get_schema_info cfg be self t0 w)) in
  generate_and_execute cfg be2 after user_query start_time t1 end_time w2
  = (schema_failure_envelope (end_time - start_time)%Q, after, w2).
Proof.
  intros Hstale Hfail Hin after.
  assert (E : after = {| schema_cache := Some {| tables := [] |};
                         schema_cache_time := Some t0 |}).
  { unfold after, _get_schema_info, get_schema. rewrite Hfail.
    destruct (schema_cache self) as [cached|] eqn:Ec; [|reflexivity].
    destruct (schema_cache_time self) as [fetched_at|] eqn:Et; [|reflexivity].
    specialize (Hstale cached fetched_at eq_refl eq_refl).
    apply Qltb_ge in Hstale. rewrite Hstale. reflexivity. }
  rewrite E. unfold generate_and_execute, _get_schema_info. simpl.
  apply Qltb_lt in Hin. rewrite Hin. reflexivity.
Qed.

(** X14.  Whatever happens, the envelope either reports no error and
    carries the statement that ran, or reports an error and carries
    neither statement nor rows; its time is the time between the two
    readings of the clock. *)
Theorem envelope_shape (self : QueryGenerator) (user_query : str)
    (start_time schema_time end_time : Q) (w : world) :
  let env :=
    fst (fst (generate_and_execute cfg be self user_query
                start_time schema_time end_time w)) in
  ((error env = None /\ exists sql, sql_query env = Some sql)
   \/ (exists msg, error env = Some msg)
      /\ sql_query env = None /\ results env = [])
  /\ execution_time env = (end_time - start_time)%Q.
Proof.
  intros env. unfold env, generate_and_execute.
  destruct (_get_schema_info cfg be self schema_time w) as [[schema self'] w1].
  destruct (tables schema) as [|table more].
  - simpl. split; [right|reflexivity]. eauto.
  - unfold bind.
    destruct (generate_sql be w1) as [[sql|e] w2].
    + destruct (execute_query cfg be (sanitize_sql sql) [] None w2) as [[rows|e] w3].
      * destruct (format_response be rows w3) as [[text|e] w4].
        -- simpl. split; [left|reflexivity]. eauto.
        -- destruct (isinstance_ValueError e); simpl;
             (split; [right|reflexivity]); eauto.
      * destruct (isinstance_ValueError e); simpl;
          (split; [right|reflexivity]); eauto.
    + destruct (isinstance_ValueError e); simpl;
        (split; [right|reflexivity]); eauto.
Qed.

(** X15.  Once the statement has run, the request succeeds: the
    envelope carries the sanitized statement and the rows, and no
    error; when the model fails to phrase the answer, the answer is
    the fallback text that counts the rows. *)
Theorem formatting_failure_is_absorbed (self self' : QueryGenerator)
    (user_query sql : str) (start_time schema_time end_time : Q)
    (w w1 w2 w3 : world) (schema : schema_info) (rows : list row) :
  _get_schema_info cfg be self schema_time w = (schema, self', w1) ->
  tables schema <> [] ->
  generate_sql be w1 = (Ok sql, w2) ->
  execute_query cfg be (sanitize_sql sql) [] None w2 = (Ok rows, w3) ->
  generate_and_execute cfg be self user_query start_time schema_time end_time w
  = ({| response :=
          match llm be (llm_calls w3) with
          | Ok text => text
          | Raise _ => _create_fallback_response rows
          end;
        sql_query := Some (sanitize_sql sql);
        results := rows;
        execution_time := (end_time - start_time)%Q;
        error := None |},
     self', tick_llm (log InvokeModel w3)).
Proof.
  intros Hschema Htables Hgen Hexec.
  unfold generate_and_execute. rewrite Hschema.
  destruct (tables schema) as [|table more]; [contradiction|].
  unfold bind. rewrite Hgen, Hexec.
  unfold format_response, _invoke_model. simpl.
  destruct (llm be (llm_calls w3)); reflexivity.
Qed.

(** X16.  A statement that the validator refuses does not reach the
    warehouse: nothing happens but the validation, and the envelope
    gives the reason of the validator, in its answer and as its
    error. *)
Theorem rejected_statement_envelope (self self' : QueryGenerator)
    (user_query sql : str) (start_time schema_time end_time : Q)
    (w w1 w2 : world) (schema : schema_info) :
  _get_schema_info cfg be self schema_time w = (schema, self', w1) ->
  tables schema <> [] ->
  generate_sql be w1 = (Ok sql, w2) ->
  validator_applied (sanitize_sql sql) = true ->
  fst (validate_sql_safety (sanitize_sql sql)) = false ->
  let reason :=
    py "Unsafe SQL query: " ++ snd (validate_sql_safety (sanitize_sql sql)) in
  generate_and_execute cfg be self user_query start_time schema_time end_time w
  = ({| response :=
          py "I couldn't generate a safe query for that request. " ++ reason;
        sql_query := None;
        results := [];
        execution_time := (end_time - start_time)%Q;
        error := Some reason |},
     self', log (Validate (sanitize_sql sql)) w2).
Proof.
  intros Hschema Htables Hgen Happlied Hunsafe reason.
  unfold generate_and_execute. rewrite Hschema.
  destruct (tables schema) as [|table more]; [contradiction|].
  unfold bind. rewrite Hgen.
  rewrite (execute_query_refused cfg be _ [] None w2 Happlied Hunsafe).
  reflexivity.
Qed.

End OrchestratorMore.

Lemma failed_fetch_is_remembered_witness :
  let after :=
    snd (fst (_get_schema_info Demo.cfg (Demo.warehouse []) init 0%Q Demo.down)) in
  generate_and_execute Demo.cfg (Demo.warehouse []) after (py "how many orders")
    100%Q 100%Q 101%Q Demo.up
  = (schema_failure_envelope (101 - 100)%Q, after, Demo.up).
Proof.
  apply (@failed_fetch_is_remembered Demo.cfg (Demo.warehouse []) init
           (Demo.warehouse []) (py "how many orders") 0%Q 100%Q 100%Q 101%Q
           Demo.down (World None 1 0 [FetchSchema]) Demo.up
           (Exception (py "Connection pool not initialized"))).
  - intros cached fetched_at H. discriminate H.
  - vm_compute. reflexivity.
  - vm_compute. reflexivity.
Defined.

Lemma formatting_failure_is_absorbed_witness :
  let env :=
    fst (fst (generate_and_execute Demo.cfg Samples.tongue_tied init
                (py "how many orders") 0%Q 0%Q 1%Q Demo.up)) in
  response env = py "Found 2 result(s). Please see the data table below."
  /\ error env = None
  /\ results env = [Demo.order_row 1; Demo.order_row 2].
Proof.
  intros env.
  pose (r1 := _get_schema_info Demo.cfg Samples.tongue_tied init 0%Q Demo.up).
  pose (r2 := generate_sql Samples.tongue_tied (snd r1)).
  pose (r3 := execute_query Demo.cfg Samples.tongue_tied
                (sanitize_sql (py "SELECT id FROM orders")) [] None (snd r2)).
  assert (H : generate_and_execute Demo.cfg Samples.tongue_tied init
                (py "how many orders") 0%Q 0%Q 1%Q Demo.up
              = ({| response :=
                      match llm Samples.tongue_tied (llm_calls (snd r3)) with
                      | Ok text => text
                      | Raise _ =>
                          _create_fallback_response
                            [Demo.order_row 1; Demo.order_row 2]
                      end;
                    sql_query := Some (sanitize_sql (py "SELECT id FROM orders"));
                    results := [Demo.order_row 1; Demo.order_row 2];
                    execution_time := (1 - 0)%Q;
                    error := None |},
                 snd (fst r1), tick_llm (log InvokeModel (snd r3)))).
  { apply (@formatting_failure_is_absorbed Demo.cfg Samples.tongue_tied init
             (snd (fst r1)) (py "how many orders") (py "SELECT id FROM orders")
             0%Q 0%Q 1%Q Demo.up (snd r1) (snd r2) (snd r3) (fst (fst r1))
             [Demo.order_row 1; Demo.order_row 2]).
    - vm_compute. reflexivity.
    - vm_compute. discriminate.
    - vm_compute. reflexivity.
    - vm_compute. reflexivity. }
  unfold env. rewrite H. split; [vm_compute; reflexivity|]. split; reflexivity.
Defined.

Lemma rejected_statement_envelope_witness :
  let run :=
    generate_and_execute Demo.cfg Samples.vandal init (py "remove the orders")
      0%Q 0%Q 1%Q Demo.up in
  error (fst (fst run))
  = Some (py "Unsafe SQL query: Dangerous SQL keyword detected: DELETE")
  /\ executed (since (snd (_get_schema_info Demo.cfg Samples.vandal init 0%Q Demo.up))
                 (snd run)) = [].
Proof.
  intros run.
  pose (r1 := _get_schema_info Demo.cfg Samples.vandal init 0%Q Demo.up).
  pose (r2 := generate_sql Samples.vandal (snd r1)).
  assert (H := @rejected_statement_envelope Demo.cfg Samples.vandal init
                 (snd (fst r1)) (py "remove the orders") (py "DELETE FROM orders")
                 0%Q 0%Q 1%Q Demo.up (snd r1) (snd r2) (fst (fst r1))).
  unfold run. rewrite H.
  - split; vm_compute; reflexivity.
  - vm_compute. reflexivity.
  - vm_compute. discriminate.
  - vm_compute. reflexivity.
  - vm_compute. reflexivity.
  - vm_compute. reflexivity.
Defined.

(** ** The schema text and the health checks *)

Section PromptAndHealth.

Variable cfg : Config.
Variable be : backend.

Lemma split_on_line (sep : ascii) (l rest : str) :
  ~ In sep l ->
  forall piece,
    split_on sep piece (l ++ sep :: rest)
    = (rev piece ++ l) :: split_on sep [] rest.
Proof.
  induction l as [|a l IH]; intros H piece; simpl.
  - rewrite Ascii.eqb_refl, app_nil_r. reflexivity.
  - assert (Ha : Ascii.eqb a sep = false).
    { apply Ascii.eqb_neq. intros ->. apply H. left. reflexivity. }
    rewrite Ha, IH by (intros Hin; apply H; right; exact Hin).
    simpl. rewrite <- app_assoc. reflexivity.
Qed.

Lemma split_on_last (sep : ascii) (l : str) :
  ~ In sep l -> forall piece, split_on sep piece l = [rev piece ++ l].
Proof.
  induction l as [|a l IH]; intros H piece; simpl.
  - rewrite app_nil_r. reflexivity.
  - assert (Ha : Ascii.eqb a sep = false).
    { apply Ascii.eqb_neq. intros ->. apply H. left. reflexivity. }
    rewrite Ha, IH by (intros Hin; apply H; right; exact Hin).
    simpl. rewrite <- app_assoc. reflexivity.
Qed.

Lemma split_on_join (sep : ascii) (pieces : list str) :
  pieces <> [] ->
  (forall p, In p pieces -> ~ In sep p) ->
  split_on sep [] (join [sep] pieces) = pieces.
Proof.
  induction pieces as [|p more IH]; [contradiction|]. intros _ H.
  rewrite join_cons. destruct more as [|q more'].
  - apply split_on_last. apply H. left. reflexivity.
  - change (p ++ [sep] ++ join [sep] (q :: more'))
      with (p ++ sep :: join [sep] (q :: more')).
    rewrite split_on_line by (apply H; left; reflexivity).
    change (rev [] ++ p) with p. f_equal. apply IH; [discriminate|].
    intros x Hx. apply H. right. exact Hx.
Qed.

(** X17.  The schema text has one line for each table, in the order of
    the schema: splitting it at the line feeds gives back the lines of
    the tables, provided there is a table and no line feed inside a
    name or a type. *)
Theorem schema_text_lines (s : schema_info) :
  tables s <> [] ->
  (forall t, In t (tables s) -> ~ In LF (format_table t)) ->
  split_on LF [] (_format_schema_info (Some s)) = map format_table (tables s).
Proof.
  intros Hne Hlf. unfold _format_schema_info. apply split_on_join.
  - destruct (tables s); [contradiction | discriminate].
  - intros p Hp. apply in_map_iff in Hp as (t & <- & Ht). exact (Hlf t Ht).
Qed.

(** X18.  The health check of the warehouse answers no, and touches
    nothing, when there is no pool; it returns every connection it
    takes and leaves the pool as it found it; and it answers yes only
    when the first row that came back has 1 in its column [test]. *)
Theorem test_connection_safe (w : world) :
  let r := test_connection cfg be w in
  (connection_pool w = None -> r = (false, w))
  /\ released (since w (snd r)) = acquired (since w (snd r))
  /\ connection_pool (snd r) = connection_pool w
  /\ (fst r = true ->
      exists first more v,
        fst (execute_query cfg be (py "SELECT 1 as test") [] None w)
        = Ok (first :: more)
        /\ getitem first (py "test") = Ok v
        /\ equals_one v = true).
Proof.
  intros r. unfold r, test_connection.
  destruct (connection_pool w) as [used|] eqn:Ep.
  2:{ simpl. unfold since. rewrite skipn_all. repeat split; auto. discriminate. }
  destruct (execute_query_spec cfg be (py "SELECT 1 as test") [] None w)
    as (res & w' & evs & E & Htr & Hpool & _ & Hrel & _).
  rewrite E. split; [discriminate|].
  assert (Hs : since w w' = evs) by (apply since_app, Htr).
  destruct res as [result|e]; cbn [fst snd]; rewrite Hs, Hpool, Ep;
    (split; [exact Hrel|]); (split; [reflexivity|]).
  - destruct result as [|first more]; [discriminate|].
    destruct (getitem first (py "test")) as [v|e] eqn:Eg; [|discriminate].
    intros Hv. exists first, more, v. auto.
  - discriminate.
Qed.

End PromptAndHealth.

Lemma schema_text_lines_witness :
  split_on LF [] (_format_schema_info (Some Demo.snapshot))
  = [py "public.orders: id (integer)"].
Proof.
  apply (@schema_text_lines Demo.snapshot).
  - discriminate.
  - intros t [<- | []]. vm_compute.
    intros H. repeat (destruct H as [H | H]; [discriminate H|]). exact H.
Defined.

Lemma test_connection_safe_witness :
  test_connection Demo.cfg (Demo.warehouse [Demo.order_row 1]) Demo.down
  = (false, Demo.down).
Proof.
  apply (@test_connection_safe Demo.cfg (Demo.warehouse [Demo.order_row 1]) Demo.down).
  reflexivity.
Defined.
